(** * Pascal VOC dataset parser (effdet/data/parsers/parser_voc.py)

    A shallow embedding of [VocParser], the class that reads a split file
    of image identifiers, loads one XML annotation per image and keeps an
    in-memory index of images and raw annotations, together with the
    properties of the index the documentation relies on.

    Conventions of the embedding.
    - Python exceptions are values of [exn]; a method that can raise
      returns a [result].
    - [dict]s are [gmap]s, Python lists are [list]s.  Parser objects are
      mutable and [merge] updates its receiver in place, so the parsers
      live in a store, from references to parser states, and [merge] is
      a store transformer.
    - Python integers read from the XML are [Z]; positions in a list and
      the values of [enumerate] are [nat].
    - A cell of a numpy array holds the value numpy computes: an integer
      stored in a float32 array is rounded to 24 significant bits, and
      so is the difference of a float32 and one.  float32 holds every
      integer of magnitude up to 2^24 exactly. *)

From stdpp Require Import gmap strings list fin_maps.
From Stdlib Require Import ZArith.

Open Scope Z_scope.

(** ** Exceptions and results *)

Inductive exn : Type :=
  | OSError (path : string)
      (* [open(cfg.split_filename)] failed *)
  | TypeError
      (* a path template that cannot be formatted with the identifier;
         [int(None)] for an element without text *)
  | FileNotFoundError (path : string)
      (* [ET.parse] of a path that is not a file *)
  | ParseError
      (* [ET.parse] of a file that is not XML *)
  | AttributeError
      (* [.find] or [.text] of an element that is not there; an attribute
         of a reference that is not a parser *)
  | ValueError
      (* [int] of a text that is not a number *)
  | KeyError (key : option string)
      (* [self.cat_to_label[name]] with a name that is not in the
         table; the key is [None] for a [name] element without text *)
  | AssertionError
  | IndexError.

Inductive result (A : Type) : Type :=
  | Ok (a : A)
  | Raise (e : exn).
Arguments Ok {A} a.
Arguments Raise {A} e.

#[global] Instance result_bind : MBind result := λ A B k r,
  match r with
  | Ok a => k a
  | Raise e => Raise e
  end.

Definition or_raise {A : Type} (o : option A) (e : exn) : result A :=
  match o with
  | Some a => Ok a
  | None => Raise e
  end.

(** ** The inputs: configuration, split file and annotation files *)

(** [VocParserCfg] (parser_config.py) as far as the parser reads it.  The
    two path templates are only ever used as [template % img_id]; they
    are represented by that function of the identifier, [None] when the
    formatting raises.  [classes] is [[]] for [None] (both are falsy in
    [cfg.classes or self.DEFAULT_CLASSES]). *)
Record VocParserCfg : Type := {
  split_filename : string;
  ann_filename : string → option string;
  img_filename : string → option string;
  keep_difficult_cfg : bool;
  classes : list string;
  has_labels_cfg : bool;
  bbox_yxyx : bool;
  min_img_size_cfg : Z;
  ignore_empty_gt_cfg : bool;
}.

(** One [object] element of an annotation file, as the loader reads it:
    [find('name').text] ([None] for an element without text),
    [int(find('difficult').text)] and the four integers of [bndbox],
    read in the order xmin, ymin, xmax, ymax.  A field that cannot be
    read is the exception that reading it raises. *)
Record XmlObject : Type := {
  xo_name : result (option string);
  xo_difficult : result Z;
  xo_bndbox : result (Z * Z * Z * Z);   (* xmin, ymin, xmax, ymax *)
}.

(** The root element: [size/width] and [size/height] as integers, or the
    exception that reading them raises, and the [object] children in
    document order. *)
Record XmlRoot : Type := {
  xml_size : result (Z * Z);            (* width, height *)
  xml_objects : list XmlObject;
}.

(** What the loader reads from disk: the lines of a text file
    ([f.readlines()]) and the parsed tree of an XML file ([ET.parse]),
    or the exception [ET.parse] raises for the path. *)
Record FileSystem : Type := {
  readlines : string → option (list string);
  ET_parse : string → result XmlRoot;
}.

(** ** The parser object *)

(** [dict(label=label, bbox=bbox, difficult=difficult)] *)
Record Ann : Type := {
  label : Z;
  bbox : Z * Z * Z * Z;
  difficult : Z;
}.

(** [dict(id=img_id, file_name=filename, width=width, height=height)] *)
Record ImgInfo : Type := {
  id : string;
  file_name : string;
  width : Z;
  height : Z;
}.

(** The attributes of a [VocParser].  [anns] is [None] only until
    [_load_annotations] assigns the empty list, before the loop; the
    record holds the list. *)
Record VocParser : Type := {
  yxyx : bool;
  has_labels : bool;
  keep_difficult : bool;
  include_bboxes_ignore : bool;
  ignore_empty_gt : bool;
  min_img_size : Z;
  correct_bbox : Z;
  cat_ids : list Z;
  cat_to_label : gmap string Z;
  img_ids : list string;
  img_ids_invalid : list string;
  img_infos : list ImgInfo;
  img_id_to_idx : gmap string nat;
  anns : list (list Ann);
}.

Definition DEFAULT_CLASSES : list string :=
  ["aeroplane"; "bicycle"; "bird"; "boat"; "bottle"; "bus"; "car"; "cat";
   "chair"; "cow"; "diningtable"; "dog"; "horse"; "motorbike"; "person";
   "pottedplant"; "sheep"; "sofa"; "train"; "tvmonitor"]%string.

(** [{cat: i + 1 for i, cat in enumerate(classes)}], [i] starting at
    [start]: a later duplicate overwrites an earlier one. *)
Fixpoint enumerate_labels (start : nat) (cs : list string)
    (m : gmap string Z) : gmap string Z :=
  match cs with
  | [] => m
  | cat :: cs' => enumerate_labels (S start) cs' (<[cat := Z.of_nat start + 1]> m)
  end.

(** ** Strings: [img_id.strip("\n")] *)

Definition newline : Ascii.ascii := Ascii.ascii_of_nat 10.

Definition is_newline (c : Ascii.ascii) : bool := Ascii.eqb c newline.

Fixpoint lstrip_newlines (s : string) : string :=
  match s with
  | EmptyString => EmptyString
  | String c s' => if is_newline c then lstrip_newlines s' else s
  end.

Fixpoint rstrip_newlines (s : string) : string :=
  match s with
  | EmptyString => EmptyString
  | String c s' =>
      match rstrip_newlines s' with
      | EmptyString => if is_newline c then EmptyString else String c EmptyString
      | r => String c r
      end
  end.

Definition strip_newlines (s : string) : string :=
  rstrip_newlines (lstrip_newlines s).

(** ** Loading: [_load_annotations] *)

(** The body of the inner loop over [root.findall('object')]: one raw
    annotation, or the first exception.  The keys of [cat_to_label] are
    class names, so the lookup of the [None] of a [name] element without
    text raises [KeyError(None)]. *)
Definition read_object (self : VocParser) (obj : XmlObject) : result Ann :=
  name ← xo_name obj;
  label ← match name with
          | Some n => or_raise (cat_to_label self !! n) (KeyError name)
          | None => Raise (KeyError None)
          end;
  difficult ← xo_difficult obj;
  bbox ← xo_bndbox obj;
  Ok {| label := label; bbox := bbox; difficult := difficult |}.

Fixpoint read_objects (self : VocParser) (objs : list XmlObject)
    : result (list Ann) :=
  match objs with
  | [] => Ok []
  | obj :: objs' =>
      a ← read_object self obj;
      rest ← read_objects self objs';
      Ok (a :: rest)
  end.

(** Assignments to and in-place updates of the attributes that change
    after the first lines of [__init__]. *)
Definition set_img_ids (v : list string) (self : VocParser) : VocParser :=
  {| yxyx := yxyx self;
     has_labels := has_labels self;
     keep_difficult := keep_difficult self;
     include_bboxes_ignore := include_bboxes_ignore self;
     ignore_empty_gt := ignore_empty_gt self;
     min_img_size := min_img_size self;
     correct_bbox := correct_bbox self;
     cat_ids := cat_ids self;
     cat_to_label := cat_to_label self;
     img_ids := v;
     img_ids_invalid := img_ids_invalid self;
     img_infos := img_infos self;
     img_id_to_idx := img_id_to_idx self;
     anns := anns self |}.

Definition set_img_ids_invalid (v : list string) (self : VocParser) : VocParser :=
  {| yxyx := yxyx self;
     has_labels := has_labels self;
     keep_difficult := keep_difficult self;
     include_bboxes_ignore := include_bboxes_ignore self;
     ignore_empty_gt := ignore_empty_gt self;
     min_img_size := min_img_size self;
     correct_bbox := correct_bbox self;
     cat_ids := cat_ids self;
     cat_to_label := cat_to_label self;
     img_ids := img_ids self;
     img_ids_invalid := v;
     img_infos := img_infos self;
     img_id_to_idx := img_id_to_idx self;
     anns := anns self |}.

Definition set_img_infos (v : list ImgInfo) (self : VocParser) : VocParser :=
  {| yxyx := yxyx self;
     has_labels := has_labels self;
     keep_difficult := keep_difficult self;
     include_bboxes_ignore := include_bboxes_ignore self;
     ignore_empty_gt := ignore_empty_gt self;
     min_img_size := min_img_size self;
     correct_bbox := correct_bbox self;
     cat_ids := cat_ids self;
     cat_to_label := cat_to_label self;
     img_ids := img_ids self;
     img_ids_invalid := img_ids_invalid self;
     img_infos := v;
     img_id_to_idx := img_id_to_idx self;
     anns := anns self |}.

Definition set_img_id_to_idx (v : gmap string nat) (self : VocParser) : VocParser :=
  {| yxyx := yxyx self;
     has_labels := has_labels self;
     keep_difficult := keep_difficult self;
     include_bboxes_ignore := include_bboxes_ignore self;
     ignore_empty_gt := ignore_empty_gt self;
     min_img_size := min_img_size self;
     correct_bbox := correct_bbox self;
     cat_ids := cat_ids self;
     cat_to_label := cat_to_label self;
     img_ids := img_ids self;
     img_ids_invalid := img_ids_invalid self;
     img_infos := img_infos self;
     img_id_to_idx := v;
     anns := anns self |}.

Definition set_anns (v : list (list Ann)) (self : VocParser) : VocParser :=
  {| yxyx := yxyx self;
     has_labels := has_labels self;
     keep_difficult := keep_difficult self;
     include_bboxes_ignore := include_bboxes_ignore self;
     ignore_empty_gt := ignore_empty_gt self;
     min_img_size := min_img_size self;
     correct_bbox := correct_bbox self;
     cat_ids := cat_ids self;
     cat_to_label := cat_to_label self;
     img_ids := img_ids self;
     img_ids_invalid := img_ids_invalid self;
     img_infos := img_infos self;
     img_id_to_idx := img_id_to_idx self;
     anns := v |}.

(** The [if] branch of the retention test, statement by statement:
    [self.anns.append(anns)], [self.img_infos.append(dict(...))],
    [self.img_ids.append(img_id)], [self.img_id_to_idx[img_id] = img_idx]. *)
Definition retain (self : VocParser) (img_idx : nat) (img_id filename : string)
    (w h : Z) (img_anns : list Ann) : VocParser :=
  let self := set_anns (anns self ++ [img_anns]) self in
  let self := set_img_infos (img_infos self ++
    [{| id := img_id; file_name := filename; width := w; height := h |}]) self in
  let self := set_img_ids (img_ids self ++ [img_id]) self in
  set_img_id_to_idx (<[img_id := img_idx]> (img_id_to_idx self)) self.

(** The [else] branch: [self.img_ids_invalid.append(img_id)]. *)
Definition reject (self : VocParser) (img_id : string) : VocParser :=
  set_img_ids_invalid (img_ids_invalid self ++ [img_id]) self.

(** One iteration of [for img_idx, img_id in enumerate(ids)]. *)
Definition load_one (cfg : VocParserCfg) (fs : FileSystem) (self : VocParser)
    (img_idx : nat) (line : string) : result VocParser :=
  let img_id := strip_newlines line in
  filename ← or_raise (img_filename cfg img_id) TypeError;
  xml_path ← or_raise (ann_filename cfg img_id) TypeError;
  root ← ET_parse fs xml_path;
  size ← xml_size root;
  let w := size.1 in
  let h := size.2 in
  if Z.min w h <? min_img_size self then Ok self       (* continue *)
  else
    img_anns ← read_objects self (xml_objects root);
    if negb (ignore_empty_gt self) || negb (Nat.eqb (length img_anns) 0)
    then Ok (retain self img_idx img_id filename w h img_anns)
    else Ok (reject self img_id).

Fixpoint load_loop (cfg : VocParserCfg) (fs : FileSystem) (self : VocParser)
    (img_idx : nat) (ids : list string) : result VocParser :=
  match ids with
  | [] => Ok self
  | line :: ids' =>
      self' ← load_one cfg fs self img_idx line;
      load_loop cfg fs self' (S img_idx) ids'
  end.

Definition _load_annotations (cfg : VocParserCfg) (fs : FileSystem)
    (self : VocParser) : result VocParser :=
  ids ← or_raise (readlines fs (split_filename cfg))
                 (OSError (split_filename cfg));
  let self := set_anns [] self in
  load_loop cfg fs self 0%nat ids.

(** The attributes [__init__] sets before it calls
    [self._load_annotations(cfg)].  [self.anns = None] is replaced by the
    list the loader assigns before anything reads it. *)
Definition init_state (cfg : VocParserCfg) : VocParser :=
  let classes := match classes cfg with [] => DEFAULT_CLASSES | cs => cs end in
    {| yxyx := bbox_yxyx cfg;
       has_labels := has_labels_cfg cfg;
       keep_difficult := keep_difficult_cfg cfg;
       include_bboxes_ignore := false;
       ignore_empty_gt := has_labels_cfg cfg && ignore_empty_gt_cfg cfg;
       min_img_size := min_img_size_cfg cfg;
       correct_bbox := 1;
       cat_ids := [];
       cat_to_label := enumerate_labels 0 classes ∅;
       img_ids := [];
       img_ids_invalid := [];
       img_infos := [];
       img_id_to_idx := ∅;
       anns := [] |}.

(** [VocParser.__init__] *)
Definition __init__ (cfg : VocParserCfg) (fs : FileSystem) : result VocParser :=
  _load_annotations cfg fs (init_state cfg).

(** ** Merging: [merge]

    Parsers are objects; [merge] changes [self] in place and reads
    [other], which may be the same object.  The store maps references to
    the current state of each parser, and every statement of [merge]
    reads the store as it is when the statement runs. *)

Definition loc : Type := nat.

Definition deref (h : gmap loc VocParser) (l : loc) : result VocParser :=
  or_raise (h !! l) AttributeError.

(** One iteration of [for id, idx in other.img_id_to_idx.items()]: the
    value [idx] is the one the dictionary of [other] holds for [id] when
    the iteration reaches it. *)
Definition merge_idx (self other : loc) (this_size : nat)
    (h : gmap loc VocParser) (id : string) : gmap loc VocParser :=
  match h !! other with
  | Some o =>
      match img_id_to_idx o !! id with
      | Some idx =>
          alter (λ s, set_img_id_to_idx
                        (<[id := (idx + this_size)%nat]> (img_id_to_idx s)) s)
                self h
      | None => h
      end
  | None => h
  end.

Definition merge (h : gmap loc VocParser) (self other : loc)
    : result (gmap loc VocParser) :=
  s ← deref h self;
  let this_size := length (img_ids s) in
  o ← deref h other;
  if negb (Nat.eqb (length (cat_ids s)) (length (cat_ids o)))
  then Raise AssertionError
  else
    let h := alter (λ s, set_img_ids (img_ids s ++ img_ids o) s) self h in
    o ← deref h other;
    let h := alter (λ s, set_img_infos (img_infos s ++ img_infos o) s) self h in
    o ← deref h other;
    let h := alter (λ s, set_anns (anns s ++ anns o) s) self h in
    o ← deref h other;
    Ok (foldl (merge_idx self other this_size) h
              (map_to_list (img_id_to_idx o)).*1).

(** ** Normalisation: [get_ann_info] and [_parse_ann_info] *)

Inductive dtype : Type := float32 | int64.

(** The value of a cell of an array.  Every number the parser stores is
    a Python integer, the float32 nearest to one, or such a float32
    minus one; all the finite ones are integers, and a finite cell holds
    that integer.  A float32 cell can also be infinite or not a
    number. *)
Inductive cell : Type :=
  | Num (v : Z)
  | Inf (negative : bool)
  | NaN.

(** The integer nearest to [z] among those written with [prec]
    significant bits, the one with the even significand when two are
    equally near: rounding to a binary floating-point format, whatever
    the exponent. *)
Definition round_ne (prec z : Z) : Z :=
  let a := Z.abs z in
  let e := Z.log2 a + 1 - prec in
  if e <=? 0 then z
  else
    let q := a / 2 ^ e in
    let r := a mod 2 ^ e in
    let half := 2 ^ (e - 1) in
    let q' := if r <? half then q
              else if half <? r then q + 1
              else if Z.even q then q else q + 1 in
    Z.sgn z * (q' * 2 ^ e).

(** The float32 nearest to an integer value: 24 significant bits,
    infinite from 2^128 on. *)
Definition to_float32 (v : Z) : cell :=
  let r := round_ne 24 v in
  if 2 ^ 128 <=? Z.abs r then Inf (r <? 0) else Num r.

(** A Python integer stored in a float32 array: numpy converts it to a
    C double (53 significant bits) and the double to float32.  An
    integer beyond the range of a double is not told apart from one that
    rounds to infinity. *)
Definition float32_of_int (z : Z) : cell :=
  to_float32 (round_ne 53 z).

(** The difference of two float32 values. *)
Definition float32_sub (x y : cell) : cell :=
  match x, y with
  | Num a, Num b => to_float32 (a - b)
  | Num _, Inf s => Inf (negb s)
  | Inf s, Num _ => Inf s
  | Inf s, Inf t => if Bool.eqb s t then NaN else Inf s
  | _, _ => NaN
  end.

(** A float32 converted to int64: the integer itself when it is one of
    64 bits, and the least int64, which is what the conversion gives on
    x86-64, for every other value. *)
Definition int64_of_float32 (c : cell) : cell :=
  match c with
  | Num v => if (- 2 ^ 63 <=? v) && (v <? 2 ^ 63) then Num v else Num (- 2 ^ 63)
  | _ => Num (- 2 ^ 63)
  end.

(** A Python integer stored in an array of element type [dt]. *)
Definition store (dt : dtype) (z : Z) : cell :=
  match dt with
  | float32 => float32_of_int z
  | int64 => Num z
  end.

(** A cell of element type [from] converted to element type [to]. *)
Definition cast (from to : dtype) (c : cell) : cell :=
  match from, to with
  | float32, int64 => int64_of_float32 c
  | int64, float32 => match c with Num v => to_float32 v | _ => c end
  | _, _ => c
  end.

(** A numpy array: element type, shape, and the cells in row-major
    order. *)
Record ndarray : Type := {
  nd_dtype : dtype;
  nd_shape : list nat;
  nd_data : list cell;
}.

(** [np.zeros(shape, dtype=dt)] *)
Definition np_zeros (shape : list nat) (dt : dtype) : ndarray :=
  {| nd_dtype := dt; nd_shape := shape;
     nd_data := replicate (foldr Nat.mul 1%nat shape) (Num 0) |}.

Definition bbox_row (b : Z * Z * Z * Z) : list Z :=
  let '(c0, c1, c2, c3) := b in [c0; c1; c2; c3].

(** [np.array(bboxes, ndmin=2, dtype=dt)] for a non-empty list of
    four-element lists of integers. *)
Definition np_array_boxes (bboxes : list (Z * Z * Z * Z)) (dt : dtype) : ndarray :=
  {| nd_dtype := dt; nd_shape := [length bboxes; 4%nat];
     nd_data := store dt <$> concat (bbox_row <$> bboxes) |}.

(** [np.array(labels, dtype=dt)] for a list of integers. *)
Definition np_array_labels (labels : list Z) (dt : dtype) : ndarray :=
  {| nd_dtype := dt; nd_shape := [length labels];
     nd_data := store dt <$> labels |}.

(** [a - k] for a float32 array [a] and a Python integer [k]: the
    integer becomes a float32 and the subtraction is that of float32. *)
Definition np_sub (a : ndarray) (k : Z) : ndarray :=
  {| nd_dtype := nd_dtype a; nd_shape := nd_shape a;
     nd_data := (λ c, float32_sub c (float32_of_int k)) <$> nd_data a |}.

(** [a.astype(dt)] *)
Definition astype (a : ndarray) (dt : dtype) : ndarray :=
  {| nd_dtype := dt; nd_shape := nd_shape a;
     nd_data := cast (nd_dtype a) dt <$> nd_data a |}.

(** The four lists the loop of [_parse_ann_info] fills. *)
Record groups : Type := {
  bboxes : list (Z * Z * Z * Z);
  labels : list Z;
  bboxes_ignore : list (Z * Z * Z * Z);
  labels_ignore : list Z;
}.

Definition no_groups : groups :=
  {| bboxes := []; labels := []; bboxes_ignore := []; labels_ignore := [] |}.

(** Python truth value of an integer. *)
Definition truthy (z : Z) : bool := negb (z =? 0).

(** The test [w < 1 or h < 1] of the loop body. *)
Definition degenerate (ann : Ann) : bool :=
  let '(x1, y1, x2, y2) := bbox ann in
  let w := x2 - x1 in
  let h := y2 - y1 in
  (w <? 1) || (h <? 1).

(** The box in the configured coordinate order. *)
Definition ordered_bbox (self : VocParser) (ann : Ann) : Z * Z * Z * Z :=
  let '(x1, y1, x2, y2) := bbox ann in
  if yxyx self then (y1, x1, y2, x2) else bbox ann.

(** The test that sends an annotation to the ignore lists. *)
Definition ignored (self : VocParser) (ann : Ann) : bool :=
  degenerate ann || (truthy (difficult ann) && negb (keep_difficult self)).

(** The body of [for ann in ann_info]. *)
Definition parse_ann (self : VocParser) (g : groups) (ann : Ann) : groups :=
  let ignore := degenerate ann in
  let bbox := ordered_bbox self ann in
  if ignore || (truthy (difficult ann) && negb (keep_difficult self))
  then {| bboxes := bboxes g; labels := labels g;
          bboxes_ignore := bboxes_ignore g ++ [bbox];
          labels_ignore := labels_ignore g ++ [label ann] |}
  else {| bboxes := bboxes g ++ [bbox]; labels := labels g ++ [label ann];
          bboxes_ignore := bboxes_ignore g;
          labels_ignore := labels_ignore g |}.

(** [if not boxes: zeros else: np.array(boxes) - 1], with the labels. *)
Definition materialize (boxes : list (Z * Z * Z * Z)) (lbls : list Z)
    : ndarray * ndarray :=
  match boxes with
  | [] => (np_zeros [0%nat; 4%nat] float32, np_zeros [0%nat] float32)
  | _ => (np_sub (np_array_boxes boxes float32) 1,
          np_array_labels lbls float32)
  end.

Definition _parse_ann_info (self : VocParser) (ann_info : list Ann)
    : gmap string ndarray :=
  let g := foldl (parse_ann self) no_groups ann_info in
  let '(bboxes_a, labels_a) := materialize (bboxes g) (labels g) in
  let ann : gmap string ndarray :=
    <["bbox" := astype bboxes_a float32]>
      (<["cls" := astype labels_a int64]> ∅) in
  if include_bboxes_ignore self then
    let '(bboxes_i, labels_i) :=
      materialize (bboxes_ignore g) (labels_ignore g) in
    <["bbox_ignore" := astype bboxes_i float32]>
      (<["cls_ignore" := astype labels_i int64]> ann)
  else ann.

(** [l[idx]] for a Python list: a negative index counts from the end. *)
Definition py_getitem {A : Type} (l : list A) (idx : Z) : result A :=
  let n := Z.of_nat (length l) in
  if (0 <=? idx) && (idx <? n) then or_raise (l !! Z.to_nat idx) IndexError
  else if (- n <=? idx) && (idx <? 0)
       then or_raise (l !! Z.to_nat (n + idx)) IndexError
       else Raise IndexError.

Definition get_ann_info (self : VocParser) (idx : Z)
    : result (gmap string ndarray) :=
  ann_info ← py_getitem (anns self) idx;
  Ok (_parse_ann_info self ann_info).

(** * Vocabulary of the properties *)

(** The annotation of an identifier: formatted file name, annotation
    path, parsed root and image size, as the head of the loop body of
    [_load_annotations] obtains them. *)
Definition annotation_of (cfg : VocParserCfg) (fs : FileSystem)
    (img_id filename xml_path : string) (root : XmlRoot) (w h : Z) : Prop :=
  img_filename cfg img_id = Some filename ∧
  ann_filename cfg img_id = Some xml_path ∧
  ET_parse fs xml_path = Ok root ∧
  xml_size root = Ok (w, h).

(** The attributes that neither loading nor merging assigns. *)
Definition same_settings (p q : VocParser) : Prop :=
  yxyx q = yxyx p ∧ has_labels q = has_labels p ∧
  keep_difficult q = keep_difficult p ∧
  include_bboxes_ignore q = include_bboxes_ignore p ∧
  ignore_empty_gt q = ignore_empty_gt p ∧
  min_img_size q = min_img_size p ∧ correct_bbox q = correct_bbox p ∧
  cat_ids q = cat_ids p ∧ cat_to_label q = cat_to_label p.

(** The three main sequences have one length. *)
Definition aligned (p : VocParser) : Prop :=
  length (img_ids p) = length (img_infos p) ∧
  length (img_infos p) = length (anns p).

(** The identifier map sends every identifier to a position of
    [img_ids] that holds it. *)
Definition idx_points_to_id (p : VocParser) : Prop :=
  ∀ (img_id : string) (idx : nat),
    img_id_to_idx p !! img_id = Some idx → img_ids p !! idx = Some img_id.

(** Every identifier kept in [img_ids] or [img_ids_invalid] has an
    annotation that passes the size test, and so has every stored image
    info. *)
Definition sizes_checked (cfg : VocParserCfg) (fs : FileSystem)
    (p : VocParser) : Prop :=
  (∀ img_id, img_id ∈ img_ids p ++ img_ids_invalid p →
     ∃ fn xp root w h,
       annotation_of cfg fs img_id fn xp root w h ∧
       min_img_size p ≤ Z.min w h) ∧
  Forall (λ info, min_img_size p ≤ Z.min (width info) (height info))
         (img_infos p).

(** The image infos are those of [img_ids], in order, and the identifier
    map only has identifiers of [img_ids]. *)
Definition ids_consistent (p : VocParser) : Prop :=
  id <$> img_infos p = img_ids p ∧
  ∀ (img_id : string) (idx : nat),
    img_id_to_idx p !! img_id = Some idx → img_id ∈ img_ids p.

(** The identifier map sends every identifier to the number of a line of
    the split file that holds it. *)
Definition split_indexed (lines : list string) (p : VocParser) : Prop :=
  ∀ (img_id : string) (idx : nat),
    img_id_to_idx p !! img_id = Some idx →
    ∃ line, lines !! idx = Some line ∧ strip_newlines line = img_id.

(** Width and height of a raw box, as [_parse_ann_info] computes them
    before any shift. *)
Definition box_width (ann : Ann) : Z :=
  let '(x1, y1, x2, y2) := bbox ann in x2 - x1.

Definition box_height (ann : Ann) : Z :=
  let '(x1, y1, x2, y2) := bbox ann in y2 - y1.

(** The annotations of a list that go to the usable lists, and those
    that go to the ignore lists. *)
Definition usable_anns (self : VocParser) (ann_info : list Ann) : list Ann :=
  filter (λ ann, ignored self ann = false) ann_info.

Definition ignored_anns (self : VocParser) (ann_info : list Ann) : list Ann :=
  filter (λ ann, ignored self ann = true) ann_info.

(** The cell of a coordinate in the arrays [bbox] and [bbox_ignore]:
    [np.array(..., dtype=np.float32) - 1] at that coordinate. *)
Definition shifted (z : Z) : cell :=
  float32_sub (float32_of_int z) (float32_of_int 1).

(** The cell of a label in the arrays [cls] and [cls_ignore]:
    [np.array(..., dtype=np.float32).astype(np.int64)] at that label. *)
Definition label_cell (z : Z) : cell :=
  int64_of_float32 (float32_of_int z).

(** The coordinates that float32 holds exactly together with their
    predecessor. *)
Definition float32_exact (z : Z) : Prop := - 2 ^ 24 < z ≤ 2 ^ 24.

(** Row [i] of a two-dimensional array. *)
Definition nd_row (a : ndarray) (i : nat) : option (list cell) :=
  match nd_shape a with
  | [rows; cols] =>
      if decide (i < rows)%nat
      then Some (take cols (drop (i * cols) (nd_data a)))
      else None
  | _ => None
  end.


(** ** Sample inputs *)

Module Samples.

Definition xml_path_of (img_id : string) : string :=
  ("Annotations/" +:+ img_id +:+ ".xml")%string.

Definition cfg (min_size : Z) (require_gt : bool) (cs : list string)
    : VocParserCfg :=
  {| split_filename := "ImageSets/Main/train.txt";
     ann_filename := λ img_id, Some (xml_path_of img_id);
     img_filename := λ img_id, Some ("JPEGImages/" +:+ img_id +:+ ".jpg")%string;
     keep_difficult_cfg := true;
     classes := cs;
     has_labels_cfg := true;
     bbox_yxyx := false;
     min_img_size_cfg := min_size;
     ignore_empty_gt_cfg := require_gt |}.

Definition object (name : string) (d : Z) (b : Z * Z * Z * Z) : XmlObject :=
  {| xo_name := Ok (Some name); xo_difficult := Ok d; xo_bndbox := Ok b |}.

Definition image (w h : Z) (objs : list XmlObject) : XmlRoot :=
  {| xml_size := Ok (w, h); xml_objects := objs |}.

(** A disk with one split file and the given annotation files. *)
Definition disk (lines : list string) (files : list (string * XmlRoot))
    : FileSystem :=
  {| readlines := λ path,
       if decide (path = "ImageSets/Main/train.txt"%string)
       then Some lines else None;
     ET_parse := λ path,
       or_raise ((list_to_map files : gmap string XmlRoot) !! path)
                (FileNotFoundError path) |}.

Definition nl (s : string) : string := (s +:+ String newline EmptyString)%string.

Definition cat_box : XmlObject := object "cat" 0 (48, 240, 195, 371).

(** Two lines; the first image is below the minimum size of 100. *)
Definition small_then_big : FileSystem :=
  disk [nl "small"; nl "big"]
       [(xml_path_of "small", image 50 400 [cat_box]);
        (xml_path_of "big", image 500 500 [cat_box])].

(** Two lines; the first image has no object. *)
Definition empty_then_big : FileSystem :=
  disk [nl "empty"; nl "big"]
       [(xml_path_of "empty", image 500 500 []);
        (xml_path_of "big", image 500 500 [cat_box])].

(** One image below the minimum size with an object of a class that is
    not in the table. *)
Definition small_unicorn : FileSystem :=
  disk [nl "tiny"]
       [(xml_path_of "tiny", image 50 400 [object "unicorn" 0 (1, 1, 5, 5)])].

(** A good image, then one with a known and an unknown class. *)
Definition big_unicorn : FileSystem :=
  disk [nl "big"; nl "img7"]
       [(xml_path_of "big", image 500 500 [cat_box]);
        (xml_path_of "img7",
         image 500 500 [cat_box; object "unicorn" 0 (1, 1, 5, 5); cat_box])].

(** Stored annotations of one image: a box of no width, a difficult box
    and two plain boxes. *)
Definition four_boxes : list Ann :=
  [{| label := 8; bbox := (10, 20, 10, 60); difficult := 0 |};
   {| label := 12; bbox := (5, 6, 50, 60); difficult := 1 |};
   {| label := 15; bbox := (48, 240, 195, 371); difficult := 0 |};
   {| label := 3; bbox := (1, 1, 2, 2); difficult := 0 |}].

(** A parser that holds two images, the second without annotations and
    that drops difficult boxes. *)
Definition parser (order_yxyx : bool) : VocParser :=
  {| yxyx := order_yxyx; has_labels := true; keep_difficult := false;
     include_bboxes_ignore := false; ignore_empty_gt := false;
     min_img_size := 32; correct_bbox := 1; cat_ids := [];
     cat_to_label := enumerate_labels 0 DEFAULT_CLASSES ∅;
     img_ids := ["a"; "b"]%string; img_ids_invalid := [];
     img_infos :=
       [{| id := "a"; file_name := "a.jpg"; width := 500; height := 375 |};
        {| id := "b"; file_name := "b.jpg"; width := 500; height := 375 |}];
     img_id_to_idx := <["a"%string := 0%nat]> (<["b"%string := 1%nat]> ∅);
     anns := [four_boxes; []] |}.

(** A parser that holds one image. *)
Definition other_parser : VocParser :=
  {| yxyx := false; has_labels := true; keep_difficult := false;
     include_bboxes_ignore := false; ignore_empty_gt := false;
     min_img_size := 32; correct_bbox := 1; cat_ids := [];
     cat_to_label := enumerate_labels 0 DEFAULT_CLASSES ∅;
     img_ids := ["c"]%string; img_ids_invalid := [];
     img_infos :=
       [{| id := "c"; file_name := "c.jpg"; width := 640; height := 480 |}];
     img_id_to_idx := <["c"%string := 0%nat]> ∅;
     anns := [[]] |}.

(** Two parsers in the store. *)
Definition two_parsers : gmap loc VocParser :=
  <[0%nat := parser false]> (<[1%nat := other_parser]> ∅).

End Samples.

(** * Vocabulary of the further properties *)

(** The class list [__init__] enumerates: [cfg.classes or
    self.DEFAULT_CLASSES]. *)
Definition classes_of (cfg : VocParserCfg) : list string :=
  match classes cfg with
  | [] => DEFAULT_CLASSES
  | cs => cs
  end.

(** The value [__init__] gives [self.ignore_empty_gt]. *)
Definition require_gt (cfg : VocParserCfg) : bool :=
  has_labels_cfg cfg && ignore_empty_gt_cfg cfg.

(** The value of a computation that returned one. *)
Definition returned {A : Type} (r : result A) : option A :=
  match r with
  | Ok a => Some a
  | Raise _ => None
  end.

(** What the head of the loop body of [_load_annotations] reads for a
    line of the split file, when nothing raises: file name, annotation
    path, root, width and height. *)
Definition line_annotation (cfg : VocParserCfg) (fs : FileSystem)
    (line : string) : option (string * string * XmlRoot * Z * Z) :=
  let img_id := strip_newlines line in
  fn ← img_filename cfg img_id;
  xp ← ann_filename cfg img_id;
  root ← returned (ET_parse fs xp);
  size ← returned (xml_size root);
  Some (fn, xp, root, size.1, size.2).

(** The image of a line is not below the minimum size. *)
Definition passes_size (cfg : VocParserCfg) (fs : FileSystem)
    (line : string) : bool :=
  match line_annotation cfg fs line with
  | Some (_, _, _, w, h) => negb (Z.min w h <? min_img_size_cfg cfg)
  | None => false
  end.

(** The annotation file of a line has an [object] element. *)
Definition has_objects (cfg : VocParserCfg) (fs : FileSystem)
    (line : string) : bool :=
  match line_annotation cfg fs line with
  | Some (_, _, root, _, _) => negb (Nat.eqb (length (xml_objects root)) 0)
  | None => false
  end.

(** The lines whose image goes to the main sequences, and those whose
    identifier goes to [img_ids_invalid]. *)
Definition retained_line (cfg : VocParserCfg) (fs : FileSystem)
    (line : string) : bool :=
  passes_size cfg fs line && (negb (require_gt cfg) || has_objects cfg fs line).

Definition rejected_line (cfg : VocParserCfg) (fs : FileSystem)
    (line : string) : bool :=
  passes_size cfg fs line && (require_gt cfg && negb (has_objects cfg fs line)).

(** A raw annotation is what the loader reads from an [object] element:
    the label of its name in the table, its difficult flag and its
    box. *)
Definition object_ann (table : gmap string Z) (obj : XmlObject) (ann : Ann)
    : Prop :=
  ∃ name, xo_name obj = Ok (Some name) ∧ table !! name = Some (label ann) ∧
          xo_difficult obj = Ok (difficult ann) ∧
          xo_bndbox obj = Ok (bbox ann).

(** Every position of the index holds the image info and the raw
    annotations of the identifier at that position, as its annotation
    file gives them. *)
Definition rows_loaded (cfg : VocParserCfg) (fs : FileSystem)
    (p : VocParser) : Prop :=
  ∀ (k : nat) (img_id : string),
    img_ids p !! k = Some img_id →
    ∃ fn xp root w h img_anns,
      annotation_of cfg fs img_id fn xp root w h ∧
      img_infos p !! k =
        Some {| id := img_id; file_name := fn; width := w; height := h |} ∧
      anns p !! k = Some img_anns ∧
      Forall2 (object_ann (cat_to_label p)) (xml_objects root) img_anns.

(** Two disks that differ at most in the [object] elements of images
    below the minimum size [min_size]: the same text files, the same XML
    files with the same sizes (or the same exceptions), and the same
    objects wherever the size test passes. *)
Definition same_above_size (min_size : Z) (fs fs' : FileSystem) : Prop :=
  (∀ path, readlines fs path = readlines fs' path) ∧
  ∀ path,
    match ET_parse fs path, ET_parse fs' path with
    | Ok r, Ok r' =>
        xml_size r = xml_size r' ∧
        (∀ w h, xml_size r = Ok (w, h) → min_size ≤ Z.min w h →
                xml_objects r = xml_objects r')
    | Raise e, Raise e' => e = e'
    | _, _ => False
    end.

(** A row [x1, y1, x2, y2] with the two coordinates of each corner
    exchanged. *)
Definition swap_xy {A : Type} (row : list A) : list A :=
  match row with
  | [c0; c1; c2; c3] => [c1; c0; c3; c2]
  | _ => row
  end.

(** Two parsers agree on the attributes [_parse_ann_info] reads. *)
Definition same_normalisation (p q : VocParser) : Prop :=
  yxyx q = yxyx p ∧ keep_difficult q = keep_difficult p ∧
  include_bboxes_ignore q = include_bboxes_ignore p.

(** ** Further sample inputs *)

Module Cases.

(** The parser a construction returns, for the sample inputs on which it
    returns one. *)
Definition built (cfg : VocParserCfg) (fs : FileSystem) : VocParser :=
  match __init__ cfg fs with
  | Ok p => p
  | Raise _ => init_state cfg
  end.

(** The disk [Samples.small_unicorn] with an unreadable object in its
    only, too small, image. *)
Definition small_broken : FileSystem :=
  Samples.disk [Samples.nl "tiny"]
    [(Samples.xml_path_of "tiny",
      Samples.image 50 400
        [{| xo_name := Raise AttributeError; xo_difficult := Raise ValueError;
            xo_bndbox := Raise TypeError |}])].

(** A split file whose second line names an annotation file without a
    [size] element: [root.find('size')] is [None] and [size.find] raises
    [AttributeError]. *)
Definition no_size : FileSystem :=
  Samples.disk [Samples.nl "big"; Samples.nl "bare"; Samples.nl "big"]
    [(Samples.xml_path_of "big", Samples.image 500 500 [Samples.cat_box]);
     (Samples.xml_path_of "bare",
      {| xml_size := Raise AttributeError; xml_objects := [] |})].

(** [Samples.parser] with the ignore arrays switched on after
    construction. *)
Definition with_ignore (p : VocParser) : VocParser :=
  {| yxyx := yxyx p; has_labels := has_labels p;
     keep_difficult := keep_difficult p; include_bboxes_ignore := true;
     ignore_empty_gt := ignore_empty_gt p; min_img_size := min_img_size p;
     correct_bbox := correct_bbox p; cat_ids := cat_ids p;
     cat_to_label := cat_to_label p; img_ids := img_ids p;
     img_ids_invalid := img_ids_invalid p; img_infos := img_infos p;
     img_id_to_idx := img_id_to_idx p; anns := anns p |}.

(** A parser with another value of [correct_bbox]. *)
Definition with_correct_bbox (v : Z) (p : VocParser) : VocParser :=
  {| yxyx := yxyx p; has_labels := has_labels p;
     keep_difficult := keep_difficult p;
     include_bboxes_ignore := include_bboxes_ignore p;
     ignore_empty_gt := ignore_empty_gt p; min_img_size := min_img_size p;
     correct_bbox := v; cat_ids := cat_ids p;
     cat_to_label := cat_to_label p; img_ids := img_ids p;
     img_ids_invalid := img_ids_invalid p; img_infos := img_infos p;
     img_id_to_idx := img_id_to_idx p; anns := anns p |}.

(** A parser without images that has a rejected identifier. *)
Definition empty_parser : VocParser :=
  {| yxyx := false; has_labels := true; keep_difficult := false;
     include_bboxes_ignore := false; ignore_empty_gt := false;
     min_img_size := 32; correct_bbox := 1; cat_ids := [];
     cat_to_label := enumerate_labels 0 DEFAULT_CLASSES ∅;
     img_ids := []; img_ids_invalid := ["gone"%string]; img_infos := [];
     img_id_to_idx := ∅; anns := [] |}.

(** [Samples.parser false] and [empty_parser] in the store. *)
Definition with_empty : gmap loc VocParser :=
  <[0%nat := Samples.parser false]> (<[1%nat := empty_parser]> ∅).


(** The store a merge leaves, for the sample stores on which it
    succeeds. *)
Definition merged (h : gmap loc VocParser) (self other : loc)
    : gmap loc VocParser :=
  match merge h self other with
  | Ok h' => h'
  | Raise _ => h
  end.

End Cases.

(** * Properties *)

(** ** The result monad *)

Lemma bind_Ok {A B : Type} (r : result A) (k : A → result B) (b : B) :
  (r ≫= k) = Ok b ↔ ∃ a, r = Ok a ∧ k a = Ok b.
Proof.
  destruct r as [a|e]; simpl.
  - split; [eauto | intros (a' & [= <-] & Hk); exact Hk].
  - split; [discriminate | intros (a' & [=] & _)].
Qed.

Lemma or_raise_Ok {A : Type} (o : option A) (e : exn) (a : A) :
  or_raise o e = Ok a ↔ o = Some a.
Proof. destruct o; simpl; split; congruence. Qed.

(** Splits a hypothesis [x ← r; k = Ok b] into its steps. *)
Ltac bind_inv H :=
  repeat match type of H with
  | (or_raise _ _ ≫= _) = Ok _ =>
      let a := fresh "a" in let Ha := fresh "Hread" in
      apply bind_Ok in H as (a & Ha & H); apply or_raise_Ok in Ha
  | (_ ≫= _) = Ok _ =>
      let a := fresh "a" in let Ha := fresh "Hstep" in
      apply bind_Ok in H as (a & Ha & H)
  end.

(** ** Loading *)

Section Loading.
Context (cfg : VocParserCfg) (fs : FileSystem).

Lemma annotation_of_size img_id fn fn' xp xp' root root' w w' h h' :
  annotation_of cfg fs img_id fn xp root w h →
  annotation_of cfg fs img_id fn' xp' root' w' h' →
  w = w' ∧ h = h'.
Proof.
  intros (_ & Hxp & Hroot & Hsz) (_ & Hxp' & Hroot' & Hsz').
  rewrite Hxp in Hxp'. injection Hxp' as <-.
  rewrite Hroot in Hroot'. injection Hroot' as <-.
  rewrite Hsz in Hsz'. by injection Hsz'.
Qed.

(** A completed iteration is one of three: the image is too small and
    nothing changes; the image is rejected for empty ground truth; the
    image is retained. *)
Lemma load_one_Ok self img_idx line self' :
  load_one cfg fs self img_idx line = Ok self' →
  ∃ fn xp root w h,
    annotation_of cfg fs (strip_newlines line) fn xp root w h ∧
    ((Z.min w h < min_img_size self ∧ self' = self) ∨
     (min_img_size self ≤ Z.min w h ∧
      ∃ img_anns,
        read_objects self (xml_objects root) = Ok img_anns ∧
        ((ignore_empty_gt self = true ∧ img_anns = [] ∧
          self' = reject self (strip_newlines line)) ∨
         ((ignore_empty_gt self = false ∨ img_anns ≠ []) ∧
          self' = retain self img_idx (strip_newlines line) fn w h img_anns)))).
Proof.
  unfold load_one. intros H. bind_inv H.
  destruct a2 as [w h]; simpl in H.
  exists a, a0, a1, w, h. split; [done|].
  destruct (Z.ltb_spec (Z.min w h) (min_img_size self)) as [Hlt|Hge].
  - left. split; [done | congruence].
  - right. split; [done|]. bind_inv H. exists a2. split; [done|].
    destruct (ignore_empty_gt self), a2 as [|x l]; simpl in H;
      injection H as <-; eauto.
Qed.

(** Induction over the loop, with the position in the split file. *)
Lemma load_loop_invariant (P : nat → VocParser → Prop) :
  (∀ self i line self',
      P i self → load_one cfg fs self i line = Ok self' → P (S i) self') →
  ∀ ids self i self',
    P i self → load_loop cfg fs self i ids = Ok self' →
    P (i + length ids)%nat self'.
Proof.
  intros Hstep ids. induction ids as [|line ids IH]; intros self i self' HP H.
  - simpl in *. injection H as <-. by rewrite Nat.add_0_r.
  - simpl in H. bind_inv H.
    replace (i + length (line :: ids))%nat with (S i + length ids)%nat
      by (simpl; lia).
    eapply IH; [|done]. eauto.
Qed.

Lemma load_loop_app ids1 ids2 self i :
  load_loop cfg fs self i (ids1 ++ ids2) =
  self' ← load_loop cfg fs self i ids1;
  load_loop cfg fs self' (i + length ids1)%nat ids2.
Proof.
  revert self i. induction ids1 as [|line ids1 IH]; intros self i; simpl.
  - by rewrite Nat.add_0_r.
  - destruct (load_one cfg fs self i line) as [s|e]; simpl; [|done].
    rewrite IH. by replace (S i + length ids1)%nat with (i + S (length ids1))%nat by lia.
Qed.

(** The attributes set from the configuration do not change while
    loading. *)
Lemma load_one_settings self i line self' :
  load_one cfg fs self i line = Ok self' → same_settings self self'.
Proof.
  intros H. apply load_one_Ok in H as (fn & xp & root & w & h & _ & H).
  destruct H as [[_ ->]|(_ & img_anns & _ & [(_ & _ & ->)|(_ & ->)])];
    by repeat split.
Qed.

Lemma load_loop_settings ids self i self' :
  load_loop cfg fs self i ids = Ok self' → same_settings self self'.
Proof.
  intros H.
  apply (load_loop_invariant (λ _ q, same_settings self q)) in H; [done| |].
  - intros q j line q' Hq Hone. apply load_one_settings in Hone.
    unfold same_settings in *. intuition congruence.
  - by repeat split.
Qed.

(** The three main sequences grow together. *)
Lemma load_one_aligned self i line self' :
  aligned self → load_one cfg fs self i line = Ok self' → aligned self'.
Proof.
  intros [H1 H2] H. apply load_one_Ok in H as (fn & xp & root & w & h & _ & H).
  destruct H as [[_ ->]|(_ & img_anns & _ & [(_ & _ & ->)|(_ & ->)])];
    unfold aligned; simpl; rewrite ?length_app; simpl; lia.
Qed.

Lemma load_loop_aligned ids self i self' :
  aligned self → load_loop cfg fs self i ids = Ok self' → aligned self'.
Proof.
  intros Ha H.
  apply (load_loop_invariant (λ _ q, aligned q)) in H; [done| |done].
  intros q j line q' Hq Hone. by eapply load_one_aligned.
Qed.

(** Every identifier kept in [img_ids] or [img_ids_invalid] passed the
    size test, and so did every stored image info. *)
Lemma load_one_sizes self i line self' :
  sizes_checked cfg fs self →
  load_one cfg fs self i line = Ok self' →
  sizes_checked cfg fs self'.
Proof.
  intros [Hids Hinfos] H.
  apply load_one_Ok in H as (fn & xp & root & w & h & Hann & H).
  destruct H as [[_ ->]|(Hge & img_anns & _ & [(_ & _ & ->)|(_ & ->)])];
    [done| |]; split; simpl; try done.
  - intros img_id. rewrite app_assoc, elem_of_app, list_elem_of_singleton.
    intros [Hin| ->]; [by apply Hids | by exists fn, xp, root, w, h].
  - intros img_id. rewrite <- app_assoc, elem_of_app. simpl.
    rewrite elem_of_cons. intros [Hin|[->|Hin]].
    + apply Hids. apply elem_of_app. by left.
    + by exists fn, xp, root, w, h.
    + apply Hids. apply elem_of_app. by right.
  - apply Forall_app. split; [done|]. by apply Forall_singleton.
Qed.

Lemma load_loop_sizes ids self i self' :
  sizes_checked cfg fs self →
  load_loop cfg fs self i ids = Ok self' →
  sizes_checked cfg fs self'.
Proof.
  intros Hs H.
  apply (load_loop_invariant (λ _ q, sizes_checked cfg fs q)) in H; [done| |done].
  intros q j line q' Hq Hone. by eapply load_one_sizes.
Qed.

(** Image infos and the identifier map follow [img_ids]. *)
Lemma load_one_ids_consistent self i line self' :
  ids_consistent self →
  load_one cfg fs self i line = Ok self' →
  ids_consistent self'.
Proof.
  intros [Hinfos Hmap] H.
  apply load_one_Ok in H as (fn & xp & root & w & h & _ & H).
  destruct H as [[_ ->]|(_ & img_anns & _ & [(_ & _ & ->)|(_ & ->)])];
    [done|done|].
  split; simpl.
  - by rewrite fmap_app, Hinfos.
  - intros img_id idx. rewrite lookup_insert, elem_of_app, list_elem_of_singleton.
    case_decide as Heq; [by right|]. intros Hl. left. by eapply Hmap.
Qed.

Lemma load_loop_ids_consistent ids self i self' :
  ids_consistent self →
  load_loop cfg fs self i ids = Ok self' →
  ids_consistent self'.
Proof.
  intros Hs H.
  apply (load_loop_invariant (λ _ q, ids_consistent q)) in H; [done| |done].
  intros q j line q' Hq Hone. by eapply load_one_ids_consistent.
Qed.

(** The identifier map records positions in the split file: the value
    stored for an identifier is the number of a line that holds it. *)
Lemma load_one_split_index (lines : list string) self i line self' :
  lines !! i = Some line →
  split_indexed lines self →
  load_one cfg fs self i line = Ok self' →
  split_indexed lines self'.
Proof.
  intros Hline Hs H.
  apply load_one_Ok in H as (fn & xp & root & w & h & _ & H).
  destruct H as [[_ ->]|(_ & img_anns & _ & [(_ & _ & ->)|(_ & ->)])];
    [done|done|].
  intros img_id idx. simpl. rewrite lookup_insert.
  case_decide as Heq; [|by apply Hs].
  intros [= <-]. subst img_id. by exists line.
Qed.

Lemma load_loop_split_index (lines pre ids : list string) self self' :
  lines = pre ++ ids →
  split_indexed lines self →
  load_loop cfg fs self (length pre) ids = Ok self' →
  split_indexed lines self'.
Proof.
  revert pre self. induction ids as [|line ids IH]; intros pre self -> Hs H.
  - simpl in H. by injection H as <-.
  - simpl in H. bind_inv H.
    apply (IH (pre ++ [line]) a).
    + by rewrite <- app_assoc.
    + eapply load_one_split_index; [|done|done].
      rewrite lookup_app_r by lia. by rewrite Nat.sub_diag.
    + rewrite length_app. simpl.
      by replace (length pre + 1)%nat with (S (length pre)) by lia.
Qed.

(** As long as no line has been skipped or rejected, the recorded
    position is the position in [img_ids]. *)
Lemma load_one_points_to_id self i line self' :
  ((length (img_ids self) ≤ i)%nat ∧
   (length (img_ids self) = i → idx_points_to_id self)) →
  load_one cfg fs self i line = Ok self' →
  (length (img_ids self') ≤ S i)%nat ∧
  (length (img_ids self') = S i → idx_points_to_id self').
Proof.
  intros [Hle Hp] H.
  apply load_one_Ok in H as (fn & xp & root & w & h & _ & H).
  destruct H as [[_ ->]|(_ & img_anns & _ & [(_ & _ & ->)|(_ & ->)])];
    simpl; try (split; [lia | intros; lia]).
  rewrite length_app. simpl. split; [lia|].
  intros Hlen. assert (length (img_ids self) = i) as Hi by lia.
  intros img_id idx. simpl. rewrite lookup_insert.
  case_decide as Heq.
  - intros [= <-]. subst img_id.
    rewrite lookup_app_r by lia. by rewrite Hi, Nat.sub_diag.
  - intros Hl. apply Hp in Hl; [|done]. by apply lookup_app_l_Some.
Qed.

(** The first unknown class name of a retained image stops the load.
    The exception carries the class name. *)
Lemma read_objects_unknown self pre obj post read name :
  read_objects self pre = Ok read →
  xo_name obj = Ok (Some name) →
  cat_to_label self !! name = None →
  read_objects self (pre ++ obj :: post) = Raise (KeyError (Some name)).
Proof.
  revert read. induction pre as [|o pre IH]; intros read Hpre Hname Hcat.
  - simpl. unfold read_object. rewrite Hname. simpl. by rewrite Hcat.
  - simpl in *. bind_inv Hpre. rewrite Hstep. simpl.
    by erewrite IH.
Qed.

Lemma load_one_unknown self i line fn xp root w h pre obj post read name :
  annotation_of cfg fs (strip_newlines line) fn xp root w h →
  min_img_size self ≤ Z.min w h →
  xml_objects root = pre ++ obj :: post →
  read_objects self pre = Ok read →
  xo_name obj = Ok (Some name) →
  cat_to_label self !! name = None →
  load_one cfg fs self i line = Raise (KeyError (Some name)).
Proof.
  intros (Hfn & Hxp & Hroot & Hsz) Hge Hobjs Hpre Hname Hcat.
  unfold load_one. rewrite Hfn. simpl. rewrite Hxp. simpl.
  rewrite Hroot. simpl. rewrite Hsz. simpl.
  destruct (Z.ltb_spec (Z.min w h) (min_img_size self)); [lia|].
  rewrite Hobjs. by erewrite read_objects_unknown.
Qed.

End Loading.

Lemma init_unfold cfg fs :
  __init__ cfg fs =
  ids ← or_raise (readlines fs (split_filename cfg))
                 (OSError (split_filename cfg));
  load_loop cfg fs (init_state cfg) 0 ids.
Proof. reflexivity. Qed.

Lemma init_Ok cfg fs p :
  __init__ cfg fs = Ok p ↔
  ∃ ids, readlines fs (split_filename cfg) = Some ids ∧
         load_loop cfg fs (init_state cfg) 0 ids = Ok p.
Proof.
  rewrite init_unfold, bind_Ok. by setoid_rewrite or_raise_Ok.
Qed.

(** The three sequences of a constructed index have one length. *)
Lemma init_aligned cfg fs p :
  __init__ cfg fs = Ok p →
  length (img_ids p) = length (img_infos p) ∧
  length (img_infos p) = length (anns p).
Proof.
  intros (ids & _ & H)%init_Ok.
  by eapply load_loop_aligned in H.
Qed.

Lemma init_settings cfg fs p :
  __init__ cfg fs = Ok p → same_settings (init_state cfg) p.
Proof. intros (ids & _ & H)%init_Ok. by eapply load_loop_settings. Qed.

Lemma read_object_ext self self' obj :
  cat_to_label self' = cat_to_label self →
  read_object self' obj = read_object self obj.
Proof. intros H. unfold read_object. by rewrite H. Qed.

Lemma read_objects_ext self self' objs :
  cat_to_label self' = cat_to_label self →
  read_objects self' objs = read_objects self objs.
Proof.
  intros H. induction objs as [|o objs IH]; [done|]. simpl.
  by rewrite IH, (read_object_ext self self').
Qed.

(** ** Claims about construction *)

(** C1 (defect in the code).  The invariant of the index says that
    [img_id_to_idx[id]] is a position of [img_ids] that holds [id].  The
    loader stores the line number of the split file instead: with a first
    line that is skipped for its size, the only retained identifier is at
    position 0 of the three sequences, which do have one length, and is
    mapped to 1, which is not a position of [img_ids] at all. *)
Theorem C1_idx_is_not_a_position :
  ∃ p, __init__ (Samples.cfg 100 false []) Samples.small_then_big = Ok p ∧
       img_ids p = ["big"%string] ∧
       length (img_infos p) = 1%nat ∧ length (anns p) = 1%nat ∧
       img_id_to_idx p !! "big"%string = Some 1%nat ∧
       img_ids p !! 1%nat = None ∧
       py_getitem (img_ids p) 1 = Raise IndexError.
Proof. eexists. split; [vm_compute; reflexivity|]. by vm_compute. Qed.

(** The part of the invariant that holds for every constructed index,
    and what the identifier map holds instead of positions. *)
Lemma init_split_indexed cfg fs p ids :
  __init__ cfg fs = Ok p →
  readlines fs (split_filename cfg) = Some ids →
  aligned p ∧ split_indexed ids p.
Proof.
  intros Hinit Hids. split; [by eapply init_aligned|].
  apply init_Ok in Hinit as (ids' & Hids' & H).
  rewrite Hids in Hids'. injection Hids' as <-.
  apply (load_loop_split_index cfg fs ids [] ids) in H; [done|done|].
  intros img_id idx. simpl. by rewrite lookup_empty.
Qed.

(** When every line of the split file is retained the map does hold
    positions. *)
Lemma init_all_retained cfg fs p ids :
  __init__ cfg fs = Ok p →
  readlines fs (split_filename cfg) = Some ids →
  length (img_ids p) = length ids →
  idx_points_to_id p.
Proof.
  intros Hinit Hids Hlen.
  apply init_Ok in Hinit as (ids' & Hids' & H).
  rewrite Hids in Hids'. injection Hids' as <-.
  apply (load_loop_invariant cfg fs
           (λ i q, (length (img_ids q) ≤ i)%nat ∧
                   (length (img_ids q) = i → idx_points_to_id q))) in H.
  - simpl in H. by apply H.
  - intros q j line q' Hq Hone. by eapply load_one_points_to_id.
  - simpl. split; [lia|]. intros _ img_id idx. simpl. by rewrite lookup_empty.
Qed.

Lemma init_ids_consistent cfg fs p :
  __init__ cfg fs = Ok p → ids_consistent p.
Proof.
  intros (ids & _ & H)%init_Ok.
  apply load_loop_ids_consistent in H; [done|].
  split; [done|]. intros img_id idx. simpl. by rewrite lookup_empty.
Qed.

(** C5.  An image of the split file whose annotation gives
    [min(width, height) < min_img_size] leaves no trace in the index:
    after construction its identifier is in neither [img_ids] nor
    [img_ids_invalid], no image info has it and the identifier map has
    no entry for it; and every retained image info has
    [min(width, height) >= min_img_size]. *)
Theorem C5_small_images_are_dropped cfg fs p ids line fn xp root w h :
  __init__ cfg fs = Ok p →
  readlines fs (split_filename cfg) = Some ids →
  line ∈ ids →
  annotation_of cfg fs (strip_newlines line) fn xp root w h →
  Z.min w h < min_img_size_cfg cfg →
  (strip_newlines line ∉ img_ids p) ∧
  (strip_newlines line ∉ img_ids_invalid p) ∧
  (strip_newlines line ∉ id <$> img_infos p) ∧
  img_id_to_idx p !! strip_newlines line = None ∧
  Forall (λ info, min_img_size_cfg cfg ≤ Z.min (width info) (height info))
         (img_infos p).
Proof.
  intros Hinit _ _ Hann Hsmall.
  pose proof (init_settings _ _ _ Hinit) as (_ & _ & _ & _ & _ & Hmin & _).
  pose proof (init_ids_consistent _ _ _ Hinit) as [Hinfo Hmap].
  apply init_Ok in Hinit as (ids' & _ & H).
  apply load_loop_sizes in H as [Hids Hinfos].
  - simpl in Hmin. rewrite Hmin in Hids, Hinfos.
    assert (strip_newlines line ∉ img_ids p ++ img_ids_invalid p) as Hnot.
    { intros (fn' & xp' & root' & w' & h' & Hann' & Hge)%Hids.
      destruct (annotation_of_size _ _ _ _ _ _ _ _ _ _ _ _ _ Hann Hann') as [-> ->].
      lia. }
    rewrite elem_of_app in Hnot.
    split; [tauto|]. split; [tauto|]. split; [rewrite Hinfo; tauto|].
    split; [|done].
    destruct (img_id_to_idx p !! strip_newlines line) as [idx|] eqn:Hl; [|done].
    apply Hmap in Hl. tauto.
  - split; simpl; [|done]. intros img_id. by rewrite elem_of_nil.
Qed.

Lemma C5_witness :
  ∃ p, __init__ (Samples.cfg 100 false []) Samples.small_then_big = Ok p ∧
       ("small"%string ∉ img_ids p) ∧ ("small"%string ∉ img_ids_invalid p) ∧
       ("small"%string ∉ id <$> img_infos p) ∧
       img_id_to_idx p !! "small"%string = None ∧
       Forall (λ info, 100 ≤ Z.min (width info) (height info)) (img_infos p).
Proof.
  eexists. split; [vm_compute; reflexivity|].
  eapply (C5_small_images_are_dropped (Samples.cfg 100 false [])
            Samples.small_then_big _ _ (Samples.nl "small") _ _ _ 50 400).
  - vm_compute; reflexivity.
  - vm_compute; reflexivity.
  - apply list_elem_of_here.
  - repeat split; vm_compute; reflexivity.
  - vm_compute; reflexivity.
Defined.

(** C6 (defect in the code).  An image that passes the size test is
    either rejected for empty ground truth or appended to the three
    sequences, but what the identifier map records for it is its line
    number in the split file, not the position it is appended at: after a
    rejected first line, the second image is appended at position 0 and
    recorded at 1. *)
Theorem C6_recorded_position_is_line_number :
  ∃ p, __init__ (Samples.cfg 100 true []) Samples.empty_then_big = Ok p ∧
       img_ids_invalid p = ["empty"%string] ∧
       img_ids p !! 0%nat = Some "big"%string ∧
       length (img_ids p) = 1%nat ∧
       img_id_to_idx p !! "big"%string = Some 1%nat.
Proof. eexists. split; [vm_compute; reflexivity|]. by vm_compute. Qed.

(** What one iteration on an image that passes the size test does, for
    every parser state and line. *)
Lemma load_one_retention cfg fs self img_idx line self' fn xp root w h :
  annotation_of cfg fs (strip_newlines line) fn xp root w h →
  min_img_size self ≤ Z.min w h →
  load_one cfg fs self img_idx line = Ok self' →
  ∃ img_anns,
    read_objects self (xml_objects root) = Ok img_anns ∧
    if ignore_empty_gt self && bool_decide (img_anns = [])
    then img_ids_invalid self' = img_ids_invalid self ++ [strip_newlines line] ∧
         img_ids self' = img_ids self ∧ img_infos self' = img_infos self ∧
         anns self' = anns self ∧ img_id_to_idx self' = img_id_to_idx self
    else img_ids_invalid self' = img_ids_invalid self ∧
         img_ids self' = img_ids self ++ [strip_newlines line] ∧
         img_infos self' = img_infos self ++
           [{| id := strip_newlines line; file_name := fn;
               width := w; height := h |}] ∧
         anns self' = anns self ++ [img_anns] ∧
         img_id_to_idx self' =
           <[strip_newlines line := img_idx]> (img_id_to_idx self).
Proof.
  intros Hann Hge H.
  apply load_one_Ok in H as (fn' & xp' & root' & w' & h' & Hann' & H).
  destruct (annotation_of_size _ _ _ _ _ _ _ _ _ _ _ _ _ Hann Hann') as [<- <-].
  destruct Hann as (Hfn & Hxp & Hroot & Hsz), Hann' as (Hfn' & Hxp' & Hroot' & _).
  rewrite Hfn in Hfn'. injection Hfn' as <-.
  rewrite Hxp in Hxp'. injection Hxp' as <-.
  rewrite Hroot in Hroot'. injection Hroot' as <-.
  destruct H as [[Hlt _]|(_ & img_anns & Hread & H)]; [lia|].
  exists img_anns. split; [done|].
  destruct H as [(-> & -> & ->)|([-> | Hne] & ->)]; simpl; try done.
  rewrite bool_decide_eq_false_2 by done. by rewrite andb_false_r.
Qed.

(** ** C8: unknown class names *)

(** C8 as stated fails.  An image below the minimum size is skipped
    before its objects are read, so an unknown class name in it does not
    stop the construction; and when the load does stop, the exception
    holds the class name, not the identifier of the image. *)
Lemma C8_unknown_name_in_small_image :
  cat_to_label (init_state (Samples.cfg 100 false [])) !! "unicorn"%string = None ∧
  (∃ p, __init__ (Samples.cfg 100 false []) Samples.small_unicorn = Ok p ∧
        img_ids p = [] ∧ img_ids_invalid p = []) ∧
  __init__ (Samples.cfg 100 false []) Samples.big_unicorn
    = Raise (KeyError (Some "unicorn"%string)).
Proof.
  split; [by vm_compute|]. split; [|by vm_compute].
  eexists. split; [vm_compute; reflexivity|]. by vm_compute.
Qed.

(** C8 (amended).  When an image of the split file passes the size test
    and one of its objects has a class name that is not in the category
    table, and nothing before that object raised (the lines before it
    loaded and the objects before it in the file were read), construction
    raises [KeyError] with the class name and no index is built. *)
Theorem C8_unknown_category_aborts cfg fs ids_pre line ids_post self
    fn xp root w h pre obj post read name :
  readlines fs (split_filename cfg) = Some (ids_pre ++ line :: ids_post) →
  load_loop cfg fs (init_state cfg) 0 ids_pre = Ok self →
  annotation_of cfg fs (strip_newlines line) fn xp root w h →
  min_img_size_cfg cfg ≤ Z.min w h →
  xml_objects root = pre ++ obj :: post →
  read_objects (init_state cfg) pre = Ok read →
  xo_name obj = Ok (Some name) →
  cat_to_label (init_state cfg) !! name = None →
  __init__ cfg fs = Raise (KeyError (Some name)).
Proof.
  intros Hids Hpre Hann Hge Hobjs Hread Hname Hcat.
  rewrite init_unfold, Hids. simpl.
  rewrite load_loop_app, Hpre. simpl.
  pose proof (load_loop_settings _ _ _ _ _ _ Hpre)
    as (_ & _ & _ & _ & _ & Hmin & _ & _ & Htable).
  erewrite load_one_unknown; [done|done| |done| | |].
  - by rewrite Hmin.
  - by rewrite (read_objects_ext (init_state cfg)).
  - done.
  - by rewrite Htable.
Qed.

Lemma C8_witness :
  __init__ (Samples.cfg 100 false []) Samples.big_unicorn
    = Raise (KeyError (Some "unicorn"%string)).
Proof.
  eapply (C8_unknown_category_aborts (Samples.cfg 100 false [])
            Samples.big_unicorn [Samples.nl "big"] (Samples.nl "img7") []
            _ _ _ _ 500 500 [Samples.cat_box]
            (Samples.object "unicorn" 0 (1, 1, 5, 5)) [Samples.cat_box]).
  - vm_compute; reflexivity.
  - vm_compute; reflexivity.
  - repeat split; vm_compute; reflexivity.
  - vm_compute. discriminate.
  - vm_compute; reflexivity.
  - vm_compute; reflexivity.
  - vm_compute; reflexivity.
  - vm_compute; reflexivity.
Defined.

(** ** Normalisation *)

Section Normalisation.
Context (self : VocParser).

Lemma degenerate_spec ann :
  degenerate ann = true ↔ box_width ann < 1 ∨ box_height ann < 1.
Proof.
  unfold degenerate, box_width, box_height.
  destruct (bbox ann) as [[[x1 y1] x2] y2].
  rewrite orb_true_iff, !Z.ltb_lt. done.
Qed.

Lemma ignored_degenerate ann :
  box_width ann < 1 ∨ box_height ann < 1 → ignored self ann = true.
Proof. intros H%degenerate_spec. unfold ignored. by rewrite H. Qed.

Lemma usable_not_degenerate ann :
  ignored self ann = false → 1 ≤ box_width ann ∧ 1 ≤ box_height ann.
Proof.
  unfold ignored. intros [Hd _]%orb_false_iff.
  destruct (Z_lt_le_dec (box_width ann) 1) as [Hw|Hw];
    [by rewrite (proj2 (degenerate_spec ann)) in Hd by (by left)|].
  destruct (Z_lt_le_dec (box_height ann) 1) as [Hh|Hh];
    [by rewrite (proj2 (degenerate_spec ann)) in Hd by (by right)|].
  done.
Qed.


(** The loop of [_parse_ann_info] splits the annotations in two, in
    order. *)
Lemma parse_ann_loop g ann_info :
  foldl (parse_ann self) g ann_info =
  {| bboxes := bboxes g ++ (ordered_bbox self <$> usable_anns self ann_info);
     labels := labels g ++ (label <$> usable_anns self ann_info);
     bboxes_ignore :=
       bboxes_ignore g ++ (ordered_bbox self <$> ignored_anns self ann_info);
     labels_ignore :=
       labels_ignore g ++ (label <$> ignored_anns self ann_info) |}.
Proof.
  revert g. induction ann_info as [|ann l IH]; intros g.
  - simpl. rewrite !app_nil_r. by destruct g.
  - simpl. rewrite IH. unfold usable_anns, ignored_anns, parse_ann.
    rewrite !filter_cons. fold (ignored self ann).
    destruct (ignored self ann) eqn:Hi; simpl;
      repeat case_decide; try done; rewrite ?fmap_cons, <- ?app_assoc; done.
Qed.


Lemma usable_ignored_disjoint ann ann_info :
  ann ∈ ignored_anns self ann_info → ann ∉ usable_anns self ann_info.
Proof.
  unfold ignored_anns, usable_anns. rewrite !list_elem_of_filter.
  intros [H _] [H' _]. congruence.
Qed.

End Normalisation.

Lemma fmap_concat_rows {A B C : Type} (f : B → C) (row : A → list B)
    (l : list A) :
  f <$> concat (row <$> l) = concat ((λ a, f <$> row a) <$> l).
Proof.
  induction l as [|a l IH]; [done|].
  by rewrite !fmap_cons, !concat_cons, fmap_app, IH.
Qed.

Lemma length_bbox_row (b : Z * Z * Z * Z) : length (bbox_row b) = 4%nat.
Proof. by destruct b as [[[? ?] ?] ?]. Qed.


(** The arrays of a group, from its lists. *)
Lemma materialize_boxes boxes lbls :
  (materialize boxes lbls).1 =
  {| nd_dtype := float32; nd_shape := [length boxes; 4%nat];
     nd_data := concat ((λ b, shifted <$> bbox_row b) <$> boxes) |}.
Proof.
  destruct boxes as [|b boxes]; [done|].
  unfold materialize, np_sub, np_array_boxes. cbn [fst nd_dtype nd_shape nd_data].
  f_equal. rewrite <- list_fmap_compose. apply fmap_concat_rows.
Qed.

Lemma materialize_labels boxes lbls :
  length lbls = length boxes →
  (materialize boxes lbls).2 =
  {| nd_dtype := float32; nd_shape := [length lbls];
     nd_data := float32_of_int <$> lbls |}.
Proof. by destruct boxes, lbls. Qed.

Lemma astype_float32 shape data :
  astype {| nd_dtype := float32; nd_shape := shape; nd_data := data |} float32
  = {| nd_dtype := float32; nd_shape := shape; nd_data := data |}.
Proof. unfold astype. simpl. f_equal. apply list_fmap_id. Qed.

Lemma astype_labels shape (lbls : list Z) :
  astype {| nd_dtype := float32; nd_shape := shape;
            nd_data := float32_of_int <$> lbls |} int64
  = {| nd_dtype := int64; nd_shape := shape; nd_data := label_cell <$> lbls |}.
Proof. unfold astype. simpl. f_equal. by rewrite <- list_fmap_compose. Qed.

Lemma parse_ann_info_bbox self ann_info :
  _parse_ann_info self ann_info !! "bbox"%string =
  Some {| nd_dtype := float32;
          nd_shape := [length (usable_anns self ann_info); 4%nat];
          nd_data := concat ((λ ann, shifted <$> bbox_row (ordered_bbox self ann))
                               <$> usable_anns self ann_info) |}.
Proof.
  unfold _parse_ann_info. rewrite parse_ann_loop. simpl.
  pose proof (materialize_boxes (ordered_bbox self <$> usable_anns self ann_info)
                (label <$> usable_anns self ann_info)) as Hb.
  destruct (materialize _ _) as [b c]. simpl in Hb. subst b.
  destruct (include_bboxes_ignore self).
  - destruct (materialize _ _) as [bi ci].
    rewrite !lookup_insert_ne by done. rewrite lookup_insert_eq.
    rewrite astype_float32. by rewrite length_fmap, <- list_fmap_compose.
  - rewrite lookup_insert_eq.
    rewrite astype_float32. by rewrite length_fmap, <- list_fmap_compose.
Qed.

Lemma parse_ann_info_cls self ann_info :
  _parse_ann_info self ann_info !! "cls"%string =
  Some {| nd_dtype := int64;
          nd_shape := [length (usable_anns self ann_info)];
          nd_data := label_cell ∘ label <$> usable_anns self ann_info |}.
Proof.
  unfold _parse_ann_info. rewrite parse_ann_loop. simpl.
  pose proof (materialize_labels (ordered_bbox self <$> usable_anns self ann_info)
                (label <$> usable_anns self ann_info)) as Hc.
  destruct (materialize _ _) as [b c]. simpl in Hc.
  rewrite Hc by (by rewrite !length_fmap).
  destruct (include_bboxes_ignore self).
  - destruct (materialize _ _) as [bi ci].
    rewrite !lookup_insert_ne by done.
    rewrite lookup_insert_eq, astype_labels.
    by rewrite length_fmap, <- list_fmap_compose.
  - rewrite lookup_insert_ne by done. rewrite lookup_insert_eq, astype_labels.
    by rewrite length_fmap, <- list_fmap_compose.
Qed.

Lemma parse_ann_info_ignore self ann_info :
  include_bboxes_ignore self = true →
  _parse_ann_info self ann_info !! "bbox_ignore"%string =
    Some {| nd_dtype := float32;
            nd_shape := [length (ignored_anns self ann_info); 4%nat];
            nd_data := concat ((λ ann, shifted <$> bbox_row (ordered_bbox self ann))
                                 <$> ignored_anns self ann_info) |} ∧
  _parse_ann_info self ann_info !! "cls_ignore"%string =
    Some {| nd_dtype := int64;
            nd_shape := [length (ignored_anns self ann_info)];
            nd_data := label_cell ∘ label <$> ignored_anns self ann_info |}.
Proof.
  intros Hinc. unfold _parse_ann_info. rewrite parse_ann_loop, Hinc. simpl.
  destruct (materialize (ordered_bbox self <$> usable_anns self ann_info) _) as [b c].
  pose proof (materialize_boxes (ordered_bbox self <$> ignored_anns self ann_info)
                (label <$> ignored_anns self ann_info)) as Hb.
  pose proof (materialize_labels (ordered_bbox self <$> ignored_anns self ann_info)
                (label <$> ignored_anns self ann_info)) as Hc.
  destruct (materialize _ _) as [bi ci]. simpl in Hb, Hc. subst bi.
  rewrite Hc by (by rewrite !length_fmap). split.
  - rewrite lookup_insert_eq, astype_float32.
    by rewrite length_fmap, <- list_fmap_compose.
  - rewrite lookup_insert_ne by done. rewrite lookup_insert_eq, astype_labels.
    by rewrite length_fmap, <- list_fmap_compose.
Qed.


(** Rows of an array built from rows of four cells. *)
Lemma concat_row {A : Type} (rows : list (list A)) (i : nat) (r : list A) :
  Forall (λ r, length r = 4%nat) rows →
  rows !! i = Some r →
  take 4 (drop (i * 4) (concat rows)) = r.
Proof.
  revert i. induction rows as [|r' rows IH]; intros i Hall Hi; [done|].
  apply Forall_cons in Hall as [Hr' Hall].
  rewrite concat_cons. destruct i as [|i]; simpl in Hi.
  - injection Hi as ->. change (0 * 4)%nat with 0%nat.
    rewrite drop_0. by rewrite take_app_length'.
  - replace (S i * 4)%nat with (length r' + i * 4)%nat by lia.
    rewrite drop_app_add'; [|done]. by apply IH.
Qed.

(** Python indexing *)
Lemma py_getitem_nat {A : Type} (l : list A) (i : nat) (a : A) :
  l !! i = Some a → py_getitem l (Z.of_nat i) = Ok a.
Proof.
  intros Hi. pose proof (lookup_lt_Some _ _ _ Hi) as Hlt. unfold py_getitem.
  destruct (Z.leb_spec 0 (Z.of_nat i)); [|lia].
  destruct (Z.ltb_spec (Z.of_nat i) (Z.of_nat (length l))); [|lia].
  simpl. by rewrite Nat2Z.id, Hi.
Qed.


(** ** Claims about normalisation *)

(** Integers that float32 holds exactly. *)
Lemma round_ne_exact prec z :
  0 < prec → Z.abs z < 2 ^ prec → round_ne prec z = z.
Proof.
  intros Hprec Hz. unfold round_ne.
  destruct (Z.leb_spec (Z.log2 (Z.abs z) + 1 - prec) 0) as [|He]; [done|].
  exfalso. destruct (Z.eq_dec (Z.abs z) 0) as [H0|H0].
  - rewrite H0 in He. simpl in He. lia.
  - assert (Z.log2 (Z.abs z) < prec); [|lia].
    apply Z.log2_lt_pow2; lia.
Qed.

Lemma to_float32_exact v :
  - 2 ^ 24 ≤ v ≤ 2 ^ 24 → to_float32 v = Num v.
Proof.
  intros Hv. assert (2 ^ 24 = 16777216) as E by reflexivity. rewrite E in Hv.
  destruct (Z.eq_dec v 16777216) as [->|Hhi]; [by vm_compute|].
  destruct (Z.eq_dec v (-16777216)) as [->|Hlo]; [by vm_compute|].
  unfold to_float32. rewrite round_ne_exact by (rewrite ?E; lia).
  destruct (Z.leb_spec (2 ^ 128) (Z.abs v)) as [Hbig|]; [|done].
  assert (2 ^ 24 < 2 ^ 128) by (by vm_compute). lia.
Qed.

Lemma float32_of_int_exact z :
  - 2 ^ 24 ≤ z ≤ 2 ^ 24 → float32_of_int z = Num z.
Proof.
  intros Hz. unfold float32_of_int.
  rewrite round_ne_exact; [by apply to_float32_exact|done|].
  assert (2 ^ 24 < 2 ^ 53) by (by vm_compute). lia.
Qed.

Lemma shifted_exact z : float32_exact z → shifted z = Num (z - 1).
Proof.
  unfold float32_exact, shifted. intros Hz.
  assert (2 ^ 24 = 16777216) as E by reflexivity. rewrite E in Hz.
  rewrite !float32_of_int_exact by (rewrite E; lia). simpl.
  apply to_float32_exact. rewrite E. lia.
Qed.

Lemma label_cell_exact z : - 2 ^ 24 ≤ z ≤ 2 ^ 24 → label_cell z = Num z.
Proof.
  intros Hz. unfold label_cell. rewrite float32_of_int_exact by done. simpl.
  assert (2 ^ 24 = 16777216) as E by reflexivity. rewrite E in Hz.
  destruct (Z.leb_spec (- 2 ^ 63) z), (Z.ltb_spec z (2 ^ 63)); simpl; try done;
    assert (2 ^ 63 = 9223372036854775808) as E' by reflexivity; lia.
Qed.

(** A row of four coordinates in range, after the shift. *)
Lemma shifted_row_exact c0 c1 c2 c3 :
  float32_exact c0 → float32_exact c1 → float32_exact c2 → float32_exact c3 →
  shifted <$> [c0; c1; c2; c3] = Num <$> [c0 - 1; c1 - 1; c2 - 1; c3 - 1].
Proof. intros. simpl. by rewrite !shifted_exact. Qed.




(** C4.  In the loop of [_parse_ann_info] an annotation whose box has
    width below 1 or height below 1 is appended to the ignore lists,
    whatever its difficult flag and whatever [keep_difficult] says; the
    lists after the loop are the ignored and the usable annotations in
    order, a box of width or height below 1 is among the ignored and not
    among the usable ones, and every annotation behind the usable arrays
    has width and height of at least 1 before the shift. *)
Theorem C4_degenerate_boxes_are_ignored self ann_info :
  let g := foldl (parse_ann self) no_groups ann_info in
  (∀ g0 ann, box_width ann < 1 ∨ box_height ann < 1 →
     parse_ann self g0 ann =
       {| bboxes := bboxes g0; labels := labels g0;
          bboxes_ignore := bboxes_ignore g0 ++ [ordered_bbox self ann];
          labels_ignore := labels_ignore g0 ++ [label ann] |}) ∧
  (∀ ann, ann ∈ ann_info → box_width ann < 1 ∨ box_height ann < 1 →
     ann ∈ ignored_anns self ann_info ∧ ann ∉ usable_anns self ann_info) ∧
  bboxes_ignore g = ordered_bbox self <$> ignored_anns self ann_info ∧
  labels_ignore g = label <$> ignored_anns self ann_info ∧
  bboxes g = ordered_bbox self <$> usable_anns self ann_info ∧
  labels g = label <$> usable_anns self ann_info ∧
  Forall (λ ann, 1 ≤ box_width ann ∧ 1 ≤ box_height ann)
         (usable_anns self ann_info) ∧
  _parse_ann_info self ann_info !! "bbox"%string =
    Some (np_sub {| nd_dtype := float32;
                    nd_shape := [length (usable_anns self ann_info); 4%nat];
                    nd_data := float32_of_int <$>
                      concat (bbox_row ∘ ordered_bbox self <$>
                                usable_anns self ann_info) |} 1).
Proof.
  intros g. subst g. rewrite parse_ann_loop. simpl.
  split; [|split; [|repeat split]].
  - intros g0 ann Hdeg. unfold parse_ann.
    by rewrite (proj2 (degenerate_spec ann) Hdeg).
  - intros ann Hin Hdeg.
    assert (ann ∈ ignored_anns self ann_info) as Hign.
    { apply list_elem_of_filter. split; [|done]. by apply ignored_degenerate. }
    split; [done|]. by apply usable_ignored_disjoint.
  - apply Forall_forall. intros ann [Hu _]%list_elem_of_filter.
    by apply usable_not_degenerate in Hu.
  - rewrite parse_ann_info_bbox. unfold np_sub. simpl. do 2 f_equal.
    symmetry. rewrite <- list_fmap_compose. apply fmap_concat_rows.
Qed.

Lemma C4_witness :
  let ann := {| label := 8; bbox := (10, 20, 10, 60); difficult := 0 |} in
  (ann ∈ ignored_anns (Samples.parser false) Samples.four_boxes) ∧
  (ann ∉ usable_anns (Samples.parser false) Samples.four_boxes).
Proof.
  intros ann.
  apply (C4_degenerate_boxes_are_ignored (Samples.parser false) Samples.four_boxes).
  - apply list_elem_of_here.
  - left. reflexivity.
Defined.





(** ** Merging *)

Section Merging.
Context (self other : loc) (this_size : nat).
Hypothesis distinct : self ≠ other.

Lemma merge_idx_frame h id l :
  l ≠ self → merge_idx self other this_size h id !! l = h !! l.
Proof.
  intros Hl. unfold merge_idx.
  destruct (h !! other) as [o|]; [|done].
  destruct (img_id_to_idx o !! id); [|done].
  by rewrite lookup_alter_ne.
Qed.

(** The loop over the items of [other], which the loop does not change:
    each visited identifier is mapped to its position in [other] plus
    [this_size], nothing else changes. *)
Lemma merge_idx_loop ids h s o :
  h !! self = Some s → h !! other = Some o →
  ∃ s', foldl (merge_idx self other this_size) h ids !! self = Some s' ∧
        foldl (merge_idx self other this_size) h ids !! other = Some o ∧
        img_ids s' = img_ids s ∧ img_infos s' = img_infos s ∧
        anns s' = anns s ∧ img_ids_invalid s' = img_ids_invalid s ∧
        same_settings s s' ∧
        (∀ id idx, id ∈ ids → img_id_to_idx o !! id = Some idx →
           img_id_to_idx s' !! id = Some (idx + this_size)%nat) ∧
        (∀ id, id ∉ ids → img_id_to_idx s' !! id = img_id_to_idx s !! id).
Proof.
  revert h s. induction ids as [|id ids IH]; intros h s Hs Ho.
  - exists s. simpl. repeat split; try done. intros id idx Hin. by apply elem_of_nil in Hin.
  - simpl.
    destruct (img_id_to_idx o !! id) as [idx|] eqn:Hid.
    + destruct (IH (merge_idx self other this_size h id)
                  (set_img_id_to_idx
                     (<[id := (idx + this_size)%nat]> (img_id_to_idx s)) s))
        as (s' & Hs' & Ho' & H1 & H2 & H3 & H4 & H5 & Hin & Hout).
      * unfold merge_idx. rewrite Ho, Hid. by rewrite lookup_alter_eq, Hs.
      * rewrite merge_idx_frame by done. done.
      * exists s'. repeat split; try done; try (by destruct H5 as (?&?&?&?&?&?&?&?&?)).
        -- intros id' idx' Hin' Hid'.
           destruct (decide (id' ∈ ids)) as [Hmem|Hmem]; [by apply Hin|].
           apply elem_of_cons in Hin' as [->|Hin']; [|done].
           rewrite Hout by done. simpl. rewrite lookup_insert_eq. congruence.
        -- intros id' Hnot. apply not_elem_of_cons in Hnot as [Hne Hnot].
           rewrite Hout by done. simpl. by rewrite lookup_insert_ne.
    + destruct (IH (merge_idx self other this_size h id) s)
        as (s' & Hs' & Ho' & H1 & H2 & H3 & H4 & H5 & Hin & Hout).
      * unfold merge_idx. by rewrite Ho, Hid.
      * unfold merge_idx. by rewrite Ho, Hid.
      * exists s'. repeat split; try done; try (by destruct H5 as (?&?&?&?&?&?&?&?&?)).
        -- intros id' idx' Hin' Hid'.
           apply elem_of_cons in Hin' as [->|Hin']; [congruence|by apply Hin].
        -- intros id' Hnot. apply not_elem_of_cons in Hnot as [Hne Hnot].
           by apply Hout.
Qed.

End Merging.

(** The assertion of [merge] compares the lengths of [cat_ids]. *)
Lemma merge_assertion h self other s o :
  h !! self = Some s → h !! other = Some o →
  length (cat_ids s) ≠ length (cat_ids o) →
  merge h self other = Raise AssertionError.
Proof.
  intros Hs Ho Hne. unfold merge, deref. rewrite Hs, Ho. simpl.
  by rewrite (proj2 (Nat.eqb_neq _ _) Hne).
Qed.

(** [cat_ids] is the empty list in every constructed parser. *)
Lemma init_cat_ids cfg fs p : __init__ cfg fs = Ok p → cat_ids p = [].
Proof. by intros (_ & _ & _ & _ & _ & _ & _ & H & _)%init_settings. Qed.

Lemma merge_distinct h self other a b :
  self ≠ other → h !! self = Some a → h !! other = Some b →
  length (cat_ids a) = length (cat_ids b) →
  ∃ h' a',
    merge h self other = Ok h' ∧ h' !! self = Some a' ∧ h' !! other = Some b ∧
    (∀ l, l ≠ self → h' !! l = h !! l) ∧
    img_ids a' = img_ids a ++ img_ids b ∧
    img_infos a' = img_infos a ++ img_infos b ∧
    anns a' = anns a ++ anns b ∧
    img_ids_invalid a' = img_ids_invalid a ∧
    same_settings a a' ∧
    (∀ id idx, img_id_to_idx b !! id = Some idx →
       img_id_to_idx a' !! id = Some (idx + length (img_ids a))%nat) ∧
    (∀ id, img_id_to_idx b !! id = None →
       img_id_to_idx a' !! id = img_id_to_idx a !! id).
Proof.
  intros Hne Hs Ho Hcat. unfold merge, deref. rewrite Hs, Ho. simpl.
  rewrite Hcat, Nat.eqb_refl. simpl.
  do 3 (rewrite !lookup_alter_ne by done; rewrite Ho; simpl).
  match goal with |- context [foldl _ ?h0 _] => set (h3 := h0) end.
  destruct (merge_idx_loop self other (length (img_ids a)) Hne
              (map_to_list (img_id_to_idx b)).*1 h3
              (set_anns (anns a ++ anns b)
                 (set_img_infos (img_infos a ++ img_infos b)
                    (set_img_ids (img_ids a ++ img_ids b) a))) b)
    as (a' & Ha' & Hb' & H1 & H2 & H3 & H4 & H5 & Hin & Hout).
  { subst h3. rewrite !lookup_alter_eq, Hs. reflexivity. }
  { subst h3. by rewrite !lookup_alter_ne. }
  eexists _, a'. split; [reflexivity|]. split; [done|]. split; [done|].
  split; [|repeat split; try done;
             try (by destruct H5 as (?&?&?&?&?&?&?&?&?))].
  - intros l Hl. clear Ha' Hb' Hin Hout.
    induction (map_to_list (img_id_to_idx b)).*1 as [|id ids IH] using rev_ind.
    + simpl. subst h3. by rewrite !lookup_alter_ne by congruence.
    + rewrite foldl_snoc, merge_idx_frame by done. done.
  - intros id idx Hid. apply Hin; [|done].
    apply list_elem_of_fmap. exists (id, idx). split; [done|].
    by apply elem_of_map_to_list.
  - intros id Hid. rewrite Hout; [done|].
    intros ([id' idx] & -> & Hmem%elem_of_map_to_list)%list_elem_of_fmap.
    simpl in Hid. congruence.
Qed.

(** The same loop when [other] is [self]: the dictionary changes under
    the iteration, but every identifier is visited once and its value is
    read before it is replaced. *)
Lemma merge_idx_loop_itself self this_size ids h s :
  NoDup ids → h !! self = Some s →
  ∃ s', foldl (merge_idx self self this_size) h ids !! self = Some s' ∧
        img_ids s' = img_ids s ∧ img_infos s' = img_infos s ∧
        anns s' = anns s ∧ img_ids_invalid s' = img_ids_invalid s ∧
        same_settings s s' ∧
        (∀ id idx, id ∈ ids → img_id_to_idx s !! id = Some idx →
           img_id_to_idx s' !! id = Some (idx + this_size)%nat) ∧
        (∀ id, id ∉ ids → img_id_to_idx s' !! id = img_id_to_idx s !! id).
Proof.
  intros Hnodup. revert h s.
  induction Hnodup as [|id ids Hfresh Hnodup IH]; intros h s Hs.
  - exists s. simpl. repeat split; try done.
    intros id idx Hin. by apply elem_of_nil in Hin.
  - simpl. unfold merge_idx at 2. rewrite Hs.
    destruct (img_id_to_idx s !! id) as [idx|] eqn:Hid.
    + destruct (IH (alter (λ s0, set_img_id_to_idx
                             (<[id := (idx + this_size)%nat]> (img_id_to_idx s0)) s0)
                          self h)
                   (set_img_id_to_idx
                      (<[id := (idx + this_size)%nat]> (img_id_to_idx s)) s))
        as (s' & Hs' & H1 & H2 & H3 & H4 & H5 & Hin & Hout).
      { by rewrite lookup_alter_eq, Hs. }
      exists s'. repeat split; try done;
        try (by destruct H5 as (?&?&?&?&?&?&?&?&?)).
      * intros id' idx' Hin' Hid'.
        apply elem_of_cons in Hin' as [->|Hin'].
        -- rewrite Hout by done. simpl. rewrite lookup_insert_eq. congruence.
        -- apply Hin; [done|]. simpl. rewrite lookup_insert_ne; [done|].
           intros ->. done.
      * intros id' Hnot. apply not_elem_of_cons in Hnot as [Hne Hnot].
        rewrite Hout by done. simpl. by rewrite lookup_insert_ne.
    + destruct (IH h s Hs) as (s' & Hs' & H1 & H2 & H3 & H4 & H5 & Hin & Hout).
      exists s'. repeat split; try done;
        try (by destruct H5 as (?&?&?&?&?&?&?&?&?)).
      * intros id' idx' Hin' Hid'.
        apply elem_of_cons in Hin' as [->|Hin']; [congruence|by apply Hin].
      * intros id' Hnot. apply not_elem_of_cons in Hnot as [Hne Hnot].
        by apply Hout.
Qed.

Lemma merge_itself h self a :
  h !! self = Some a →
  ∃ h' a',
    merge h self self = Ok h' ∧ h' !! self = Some a' ∧
    img_ids a' = img_ids a ++ img_ids a ∧
    img_infos a' = img_infos a ++ img_infos a ∧
    anns a' = anns a ++ anns a ∧
    (∀ id idx, img_id_to_idx a !! id = Some idx →
       img_id_to_idx a' !! id = Some (idx + length (img_ids a))%nat).
Proof.
  intros Hs. unfold merge, deref. rewrite Hs. simpl.
  rewrite Nat.eqb_refl. simpl.
  do 3 (rewrite !lookup_alter_eq, Hs; simpl).
  match goal with |- context [foldl _ ?h0 _] => set (h3 := h0) end.
  destruct (merge_idx_loop_itself self (length (img_ids a))
              (map_to_list (img_id_to_idx a)).*1 h3
              (set_anns (anns a ++ anns a)
                 (set_img_infos (img_infos a ++ img_infos a)
                    (set_img_ids (img_ids a ++ img_ids a) a))))
    as (a' & Ha' & H1 & H2 & H3 & _ & _ & Hin & _).
  { apply NoDup_fst_map_to_list. }
  { subst h3. rewrite !lookup_alter_eq, Hs. reflexivity. }
  eexists _, a'. split; [reflexivity|]. do 4 (split; [done|]).
  intros id idx Hid. apply Hin; [|done].
  apply list_elem_of_fmap. exists (id, idx). split; [done|].
  by apply elem_of_map_to_list.
Qed.

(** ** Claims about [merge] *)

(** C2 (defect in the code).  [merge] is meant to fail when the category
    tables of the two indexes differ in size, but what it asserts is that
    the two [cat_ids] lists have one length, and [__init__] leaves
    [cat_ids] empty: a parser built with one class and a parser built
    with two classes merge without an exception, and the receiver is
    extended. *)
Theorem C2_merge_does_not_compare_category_tables :
  ∃ pa pb h',
    __init__ (Samples.cfg 100 false ["cat"%string]) Samples.small_then_big = Ok pa ∧
    __init__ (Samples.cfg 100 false ["cat"; "dog"]%string) Samples.empty_then_big
      = Ok pb ∧
    size (cat_to_label pa) = 1%nat ∧ size (cat_to_label pb) = 2%nat ∧
    merge (<[0%nat := pa]> (<[1%nat := pb]> ∅)) 0%nat 1%nat = Ok h' ∧
    img_ids <$> h' !! 0%nat = Some ["big"; "empty"; "big"]%string.
Proof.
  eexists _, _, _.
  split; [vm_compute; reflexivity|]. split; [vm_compute; reflexivity|].
  split; [by vm_compute|]. split; [by vm_compute|].
  split; [vm_compute; reflexivity|]. by vm_compute.
Qed.

(** No pair of constructed parsers makes the assertion of [merge]
    fail. *)
Lemma merge_constructed cfg_a fs_a cfg_b fs_b a b h self other :
  __init__ cfg_a fs_a = Ok a → __init__ cfg_b fs_b = Ok b →
  self ≠ other → h !! self = Some a → h !! other = Some b →
  ∃ h', merge h self other = Ok h'.
Proof.
  intros Ha%init_cat_ids Hb%init_cat_ids Hne Hs Ho.
  destruct (merge_distinct h self other a b Hne Hs Ho) as (h' & a' & Hm & _);
    [by rewrite Ha, Hb|].
  by exists h'.
Qed.

(** C7.  After a successful merge of an index [a] with an index [b], the
    sequences of [a] are those of [a] before the merge followed by those
    of [b], so [img_ids] has the sum of the two lengths, and every
    identifier of [b] is mapped to the length of [a] before the merge
    plus its position in [b]; [b], when it is another object than [a],
    is as before. *)
Theorem C7_merge_appends_and_shifts h self other a b h' :
  h !! self = Some a → h !! other = Some b →
  merge h self other = Ok h' →
  ∃ a',
    h' !! self = Some a' ∧
    length (img_ids a') = (length (img_ids a) + length (img_ids b))%nat ∧
    img_ids a' = img_ids a ++ img_ids b ∧
    img_infos a' = img_infos a ++ img_infos b ∧
    anns a' = anns a ++ anns b ∧
    (∀ id idx, img_id_to_idx b !! id = Some idx →
       img_id_to_idx a' !! id = Some (length (img_ids a) + idx)%nat) ∧
    (self ≠ other → h' !! other = Some b).
Proof.
  intros Hs Ho Hm. destruct (decide (self = other)) as [<-|Hne].
  - rewrite Hs in Ho. injection Ho as <-.
    destruct (merge_itself h self a Hs)
      as (h'' & a' & Hm' & Ha' & Hids & Hinfos & Hanns & Hin).
    rewrite Hm in Hm'. injection Hm' as <-.
    exists a'. split; [done|]. rewrite Hids, length_app.
    do 4 (split; [done|]). split; [|done].
    intros id idx Hid. rewrite (Hin id idx Hid). f_equal. lia.
  - destruct (decide (length (cat_ids a) = length (cat_ids b))) as [Hcat|Hcat];
      [|by rewrite (merge_assertion h self other a b Hs Ho Hcat) in Hm].
    destruct (merge_distinct h self other a b Hne Hs Ho Hcat)
      as (h'' & a' & Hm' & Ha' & Hb' & _ & Hids & Hinfos & Hanns & _ & _ & Hin & _).
    rewrite Hm in Hm'. injection Hm' as <-.
    exists a'. split; [done|]. rewrite Hids, length_app.
    do 4 (split; [done|]). split; [|done].
    intros id idx Hid. rewrite (Hin id idx Hid). f_equal. lia.
Qed.

Lemma C7_witness :
  ∃ h' a',
    merge Samples.two_parsers 0%nat 1%nat = Ok h' ∧
    h' !! 0%nat = Some a' ∧
    length (img_ids a') = 3%nat ∧
    img_id_to_idx a' !! "c"%string = Some 2%nat ∧
    h' !! 1%nat = Some Samples.other_parser.
Proof.
  eexists.
  destruct (C7_merge_appends_and_shifts Samples.two_parsers 0%nat 1%nat
              (Samples.parser false) Samples.other_parser _
              eq_refl eq_refl eq_refl)
    as (a' & Ha' & Hlen & _ & _ & _ & Hidx & Hb).
  exists a'. split; [reflexivity|]. split; [exact Ha'|].
  split; [exact Hlen|]. split; [|apply Hb; discriminate].
  apply (Hidx "c"%string 0%nat). reflexivity.
Defined.

(** A parser merged with itself is both the receiver and the source, and
    is extended. *)
Example merge_with_itself :
  ∃ h', merge Samples.two_parsers 1%nat 1%nat = Ok h' ∧
        img_ids <$> h' !! 1%nat = Some ["c"; "c"]%string ∧
        (λ p, img_id_to_idx p !! "c"%string) <$> h' !! 1%nat = Some (Some 1%nat).
Proof. eexists. split; [vm_compute; reflexivity|]. by vm_compute. Qed.

(** * Further properties of the loader *)

Lemma line_annotation_Some cfg fs line fn xp root w h :
  line_annotation cfg fs line = Some (fn, xp, root, w, h) ↔
  annotation_of cfg fs (strip_newlines line) fn xp root w h.
Proof.
  unfold line_annotation, annotation_of.
  destruct (img_filename cfg _) as [fn'|]; simpl;
    [|split; [done | by intros [? _]]].
  destruct (ann_filename cfg _) as [xp'|]; simpl;
    [|split; [done | by intros (_ & ? & _)]].
  destruct (ET_parse fs xp') as [root'|] eqn:Hroot; simpl.
  - destruct (xml_size root') as [[w' h']|] eqn:Hsz; simpl.
    + split.
      * intros [= <- <- <- <- <-]. done.
      * intros ([= <-] & [= <-] & Hr & Hs). rewrite Hroot in Hr.
        injection Hr as <-. rewrite Hsz in Hs. by injection Hs as <- <-.
    + split; [done|]. intros ([= <-] & [= <-] & Hr & Hs).
      rewrite Hroot in Hr. injection Hr as <-. by rewrite Hsz in Hs.
  - split; [done|]. intros ([= <-] & [= <-] & Hr & _). by rewrite Hroot in Hr.
Qed.

(** The inner loop succeeds exactly when every object can be read, and
    then it returns one raw annotation per object, in document order. *)
Lemma read_objects_Ok self objs img_anns :
  read_objects self objs = Ok img_anns ↔
  Forall2 (object_ann (cat_to_label self)) objs img_anns.
Proof.
  revert img_anns. induction objs as [|obj objs IH]; intros img_anns; simpl.
  - split; [intros [= <-]; constructor | by intros ->%Forall2_nil_inv_l].
  - rewrite bind_Ok. split.
    + intros (ann & Hobj & H). bind_inv H. injection H as <-.
      apply Forall2_cons. split; [|by apply IH].
      unfold read_object in Hobj. bind_inv Hobj. injection Hobj as <-.
      destruct a0 as [name|]; [|done]. apply or_raise_Ok in Hstep1.
      by exists name.
    + intros (ann & rest & (name & Hn & Ht & Hd & Hb) & Hrest & ->)%Forall2_cons_inv_l.
      exists ann. split.
      * unfold read_object. rewrite Hn. simpl. rewrite Ht. simpl.
        rewrite Hd. simpl. rewrite Hb. simpl. by destruct ann.
      * apply IH in Hrest. by rewrite Hrest.
Qed.

Lemma read_objects_length self objs img_anns :
  read_objects self objs = Ok img_anns → length img_anns = length objs.
Proof. intros H%read_objects_Ok. symmetry. by eapply Forall2_length. Qed.

Section Partition.
Context (cfg : VocParserCfg) (fs : FileSystem).

(** One iteration appends the identifier of a retained line to
    [img_ids], that of a rejected line to [img_ids_invalid], and leaves
    both as they are for a line that is neither. *)
Lemma load_one_partition self i line self' :
  min_img_size self = min_img_size_cfg cfg →
  ignore_empty_gt self = require_gt cfg →
  load_one cfg fs self i line = Ok self' →
  img_ids self' =
    img_ids self ++
    (if retained_line cfg fs line then [strip_newlines line] else []) ∧
  img_ids_invalid self' =
    img_ids_invalid self ++
    (if rejected_line cfg fs line then [strip_newlines line] else []).
Proof.
  intros Hmin Hgt H.
  apply load_one_Ok in H as (fn & xp & root & w & h & Hann & H).
  apply line_annotation_Some in Hann.
  unfold retained_line, rejected_line, passes_size, has_objects.
  rewrite Hann, <- Hmin, <- Hgt.
  destruct H as [[Hlt ->]|(Hge & img_anns & Hread & H)].
  - rewrite (proj2 (Z.ltb_lt _ _) Hlt). simpl. by rewrite !app_nil_r.
  - rewrite (proj2 (Z.ltb_ge _ _) Hge). simpl.
    apply read_objects_length in Hread.
    destruct H as [(-> & -> & ->)|([-> | Hne] & ->)]; simpl.
    + simpl in Hread. rewrite <- Hread. simpl. by rewrite app_nil_r.
    + by rewrite app_nil_r.
    + destruct img_anns as [|a l]; [done|]. simpl in Hread.
      rewrite <- Hread. simpl. rewrite orb_true_r, andb_false_r.
      by rewrite app_nil_r.
Qed.

Lemma load_loop_partition ids self i self' :
  min_img_size self = min_img_size_cfg cfg →
  ignore_empty_gt self = require_gt cfg →
  load_loop cfg fs self i ids = Ok self' →
  img_ids self' =
    img_ids self ++
    (strip_newlines <$> filter (λ l, retained_line cfg fs l = true) ids) ∧
  img_ids_invalid self' =
    img_ids_invalid self ++
    (strip_newlines <$> filter (λ l, rejected_line cfg fs l = true) ids).
Proof.
  revert self i. induction ids as [|line ids IH]; intros self i Hmin Hgt H.
  - simpl in H. injection H as <-. by rewrite !app_nil_r.
  - simpl in H. bind_inv H.
    pose proof (load_one_settings _ _ _ _ _ _ Hstep)
      as (_ & _ & _ & _ & Hgt' & Hmin' & _).
    destruct (load_one_partition _ _ _ _ Hmin Hgt Hstep) as [F1 F2].
    destruct (IH a (S i)) as [E1 E2]; [congruence|congruence|done|].
    rewrite E1, E2, F1, F2, !filter_cons.
    destruct (retained_line cfg fs line), (rejected_line cfg fs line);
      repeat case_decide; try done; simpl; by rewrite <- ?app_assoc, ?app_nil_r.
Qed.

End Partition.

(** X1.  After construction [img_ids] holds, in the order of the split
    file, the stripped lines whose image passes the size test and that
    are not rejected for empty ground truth, and [img_ids_invalid] holds
    in that order the stripped lines that pass the size test and are
    rejected; a line below the minimum size is in neither. *)
Theorem X1_ids_are_the_filtered_lines cfg fs p ids :
  __init__ cfg fs = Ok p →
  readlines fs (split_filename cfg) = Some ids →
  img_ids p =
    strip_newlines <$> filter (λ l, retained_line cfg fs l = true) ids ∧
  img_ids_invalid p =
    strip_newlines <$> filter (λ l, rejected_line cfg fs l = true) ids.
Proof.
  intros (ids' & Hids' & H)%init_Ok Hids.
  rewrite Hids in Hids'. injection Hids' as <-.
  by apply load_loop_partition in H.
Qed.

Lemma X1_witness :
  ∃ p, __init__ (Samples.cfg 100 true []) Samples.empty_then_big = Ok p ∧
       img_ids p = ["big"%string] ∧ img_ids_invalid p = ["empty"%string].
Proof.
  eexists. split; [vm_compute; reflexivity|].
  apply (X1_ids_are_the_filtered_lines (Samples.cfg 100 true [])
           Samples.empty_then_big _ [Samples.nl "empty"; Samples.nl "big"]).
  - vm_compute; reflexivity.
  - vm_compute; reflexivity.
Defined.

Section Rows.
Context (cfg : VocParserCfg) (fs : FileSystem).

Lemma load_one_rows self i line self' :
  aligned self → rows_loaded cfg fs self →
  load_one cfg fs self i line = Ok self' →
  rows_loaded cfg fs self'.
Proof.
  intros [Hl1 Hl2] Hrows H.
  apply load_one_Ok in H as (fn & xp & root & w & h & Hann & H).
  destruct H as [[_ ->]|(_ & img_anns & Hread & [(_ & _ & ->)|(_ & ->)])];
    [done|done|].
  intros k img_id. simpl. intros [Hk|[Hle Hk]]%lookup_app_Some.
  - destruct (Hrows k img_id Hk)
      as (fn' & xp' & root' & w' & h' & anns' & Ha & Hi & Hn & Hf).
    exists fn', xp', root', w', h', anns'.
    split; [done|]. split; [by apply lookup_app_l_Some|].
    split; [by apply lookup_app_l_Some|done].
  - apply list_lookup_singleton_Some in Hk as [Hk <-].
    assert (k = length (img_ids self)) as -> by lia.
    exists fn, xp, root, w, h, img_anns. split; [done|].
    split; [rewrite Hl1; apply list_lookup_middle; done|].
    split; [rewrite Hl1, Hl2; apply list_lookup_middle; done|].
    by apply read_objects_Ok in Hread.
Qed.

Lemma load_loop_rows ids self i self' :
  aligned self → rows_loaded cfg fs self →
  load_loop cfg fs self i ids = Ok self' →
  rows_loaded cfg fs self'.
Proof.
  intros Ha Hr H.
  apply (load_loop_invariant cfg fs (λ _ q, aligned q ∧ rows_loaded cfg fs q))
    in H; [by destruct H|  |done].
  intros q j line q' [Hq1 Hq2] Hone. split.
  - by eapply load_one_aligned.
  - by eapply load_one_rows.
Qed.

(** With the empty-ground-truth filter on, no empty annotation list is
    stored. *)
Lemma load_one_nonempty self i line self' :
  ignore_empty_gt self = true →
  Forall (λ img_anns, img_anns ≠ []) (anns self) →
  load_one cfg fs self i line = Ok self' →
  Forall (λ img_anns, img_anns ≠ []) (anns self').
Proof.
  intros Hgt Hall H.
  apply load_one_Ok in H as (fn & xp & root & w & h & _ & H).
  destruct H as [[_ ->]|(_ & img_anns & _ & [(_ & _ & ->)|([Hoff|Hne] & ->)])];
    try done; [congruence|].
  simpl. apply Forall_app. split; [done|]. by apply Forall_singleton.
Qed.

(** The keys of the identifier map are the retained identifiers. *)
Lemma load_one_dom self i line self' :
  dom (img_id_to_idx self) = list_to_set (img_ids self) →
  load_one cfg fs self i line = Ok self' →
  dom (img_id_to_idx self') = list_to_set (img_ids self').
Proof.
  intros Hdom H.
  apply load_one_Ok in H as (fn & xp & root & w & h & _ & H).
  destruct H as [[_ ->]|(_ & img_anns & _ & [(_ & _ & ->)|(_ & ->)])];
    [done|done|].
  simpl. rewrite dom_insert_L, list_to_set_app_L, Hdom. simpl.
  rewrite union_empty_r_L. apply union_comm_L.
Qed.

End Rows.

Lemma init_rows_loaded cfg fs p :
  __init__ cfg fs = Ok p → rows_loaded cfg fs p.
Proof.
  intros (ids & _ & H)%init_Ok.
  apply load_loop_rows in H; [done|done|].
  intros k img_id Hk. simpl in Hk. by rewrite lookup_nil in Hk.
Qed.

(** X2.  Every position of a constructed index holds the data of one
    image: the image info at the position of an identifier has that
    identifier, the file name formatted from it and the width and height
    of its annotation file, and the annotation list at that position has
    one raw annotation per [object] element of the file, in document
    order, with the label of the object's name in the category table,
    its difficult flag and its box. *)
Theorem X2_positions_hold_the_annotation cfg fs p k img_id :
  __init__ cfg fs = Ok p →
  img_ids p !! k = Some img_id →
  ∃ fn xp root w h img_anns,
    annotation_of cfg fs img_id fn xp root w h ∧
    img_infos p !! k =
      Some {| id := img_id; file_name := fn; width := w; height := h |} ∧
    anns p !! k = Some img_anns ∧
    Forall2 (object_ann (cat_to_label p)) (xml_objects root) img_anns.
Proof. intros Hinit Hk. by apply (init_rows_loaded cfg fs p Hinit). Qed.

Lemma X2_witness :
  ∃ fn xp root w h img_anns,
    annotation_of (Samples.cfg 100 false []) Samples.small_then_big
      "big" fn xp root w h ∧
    img_infos (Cases.built (Samples.cfg 100 false []) Samples.small_then_big)
      !! 0%nat =
      Some {| id := "big"; file_name := fn; width := w; height := h |} ∧
    anns (Cases.built (Samples.cfg 100 false []) Samples.small_then_big)
      !! 0%nat = Some img_anns ∧
    Forall2 (object_ann (cat_to_label
               (Cases.built (Samples.cfg 100 false []) Samples.small_then_big)))
            (xml_objects root) img_anns.
Proof.
  apply (X2_positions_hold_the_annotation (Samples.cfg 100 false [])
           Samples.small_then_big
           (Cases.built (Samples.cfg 100 false []) Samples.small_then_big)
           0%nat "big"%string).
  - vm_compute; reflexivity.
  - vm_compute; reflexivity.
Defined.

(** The labels [enumerate_labels] adds are the numbers after [start]. *)
Lemma enumerate_labels_range cs start m c v :
  enumerate_labels start cs m !! c = Some v →
  m !! c = Some v ∨
  Z.of_nat start + 1 ≤ v ≤ Z.of_nat start + Z.of_nat (length cs).
Proof.
  revert start m. induction cs as [|cat cs IH]; intros start m H; simpl in H.
  - by left.
  - apply IH in H as [H|H].
    + rewrite lookup_insert in H. case_decide.
      * injection H as <-. right. simpl. lia.
      * by left.
    + right. simpl. lia.
Qed.

(** A name that is not in the list keeps what the table had; a name in
    the list gets the number of its last occurrence, counted from one. *)
Lemma enumerate_labels_absent cs start m c :
  c ∉ cs → enumerate_labels start cs m !! c = m !! c.
Proof.
  revert start m. induction cs as [|cat cs IH]; intros start m Hc; [done|].
  apply not_elem_of_cons in Hc as [Hne Hc]. simpl.
  rewrite IH by done. by rewrite lookup_insert_ne.
Qed.

Lemma enumerate_labels_last pre c post start m :
  c ∉ post →
  enumerate_labels start (pre ++ c :: post) m !! c =
  Some (Z.of_nat start + Z.of_nat (length pre) + 1).
Proof.
  revert start m. induction pre as [|cat pre IH]; intros start m Hc; simpl.
  - rewrite enumerate_labels_absent by done. rewrite lookup_insert_eq.
    f_equal. lia.
  - rewrite IH by done. f_equal. lia.
Qed.

Lemma init_cat_to_label cfg fs p :
  __init__ cfg fs = Ok p →
  cat_to_label p = enumerate_labels 0 (classes_of cfg) ∅.
Proof. by intros (_ & _ & _ & _ & _ & _ & _ & _ & H)%init_settings. Qed.

(** X3.  Every label stored in a constructed index is between 1 and the
    number of classes of the list in use (the configured one, or the
    twenty default classes when none is configured). *)
Theorem X3_stored_labels_in_range cfg fs p img_anns ann :
  __init__ cfg fs = Ok p →
  img_anns ∈ anns p → ann ∈ img_anns →
  1 ≤ label ann ≤ Z.of_nat (length (classes_of cfg)).
Proof.
  intros Hinit [k Hk]%list_elem_of_lookup [j Hj]%list_elem_of_lookup.
  pose proof (init_aligned _ _ _ Hinit) as [Hl1 Hl2].
  pose proof (lookup_lt_Some _ _ _ Hk) as Hlt.
  destruct (lookup_lt_is_Some_2 (img_ids p) k) as [img_id Hid]; [lia|].
  destruct (init_rows_loaded _ _ _ Hinit k img_id Hid)
    as (fn & xp & root & w & h & img_anns' & _ & _ & Hk' & Hall).
  rewrite Hk in Hk'. injection Hk' as <-.
  destruct (Forall2_lookup_r _ _ _ _ _ Hall Hj)
    as (obj & _ & name & _ & Hlabel & _).
  rewrite (init_cat_to_label _ _ _ Hinit) in Hlabel.
  apply enumerate_labels_range in Hlabel as [Hlabel|Hlabel]; [done|].
  simpl in Hlabel. lia.
Qed.

Lemma X3_witness :
  1 ≤ label {| label := 8; bbox := (48, 240, 195, 371); difficult := 0 |} ≤ 20.
Proof.
  eapply (X3_stored_labels_in_range (Samples.cfg 100 false [])
            Samples.small_then_big _
            [{| label := 8; bbox := (48, 240, 195, 371); difficult := 0 |}]).
  - vm_compute; reflexivity.
  - apply list_elem_of_here.
  - apply list_elem_of_here.
Defined.

(** X4.  The category table of a constructed index maps a class name to
    one plus the position of its last occurrence in the class list in
    use, so with a list without repetition the i-th class (from 0) has
    label i + 1; a name that is not in the list has no label. *)
Theorem X4_category_table cfg fs p :
  __init__ cfg fs = Ok p →
  (∀ pre c post,
     classes_of cfg = pre ++ c :: post → c ∉ post →
     cat_to_label p !! c = Some (Z.of_nat (length pre) + 1)) ∧
  (∀ c, c ∉ classes_of cfg → cat_to_label p !! c = None).
Proof.
  intros ->%init_cat_to_label. split.
  - intros pre c post -> Hc. by rewrite enumerate_labels_last.
  - intros c Hc. by rewrite enumerate_labels_absent.
Qed.

Lemma X4_witness :
  ∃ p, __init__ (Samples.cfg 100 false ["cat"; "dog"; "cat"]%string)
         Samples.small_then_big = Ok p ∧
       cat_to_label p !! "cat"%string = Some 3 ∧
       cat_to_label p !! "dog"%string = Some 2 ∧
       cat_to_label p !! "bird"%string = None.
Proof.
  eexists. split; [vm_compute; reflexivity|].
  destruct (X4_category_table (Samples.cfg 100 false ["cat"; "dog"; "cat"]%string)
              Samples.small_then_big _ ltac:(vm_compute; reflexivity))
    as [Hin Hout].
  split; [|split].
  - apply (Hin ["cat"; "dog"]%string "cat"%string []); [reflexivity|].
    apply not_elem_of_nil.
  - apply (Hin ["cat"]%string "dog"%string ["cat"]%string); [reflexivity|].
    by intros [?|[]%elem_of_nil]%elem_of_cons.
  - apply Hout. by intros [?|[?|[?|[]%elem_of_nil]%elem_of_cons]%elem_of_cons]%elem_of_cons.
Defined.

(** X5.  When the configuration has [has_labels] false or
    [ignore_empty_gt] false, no identifier is ever rejected:
    [img_ids_invalid] is empty and [img_ids] holds every line whose
    image passes the size test, with or without objects. *)
Theorem X5_no_rejection_when_filter_off cfg fs p ids :
  __init__ cfg fs = Ok p →
  readlines fs (split_filename cfg) = Some ids →
  has_labels_cfg cfg = false ∨ ignore_empty_gt_cfg cfg = false →
  img_ids_invalid p = [] ∧
  img_ids p = strip_newlines <$> filter (λ l, passes_size cfg fs l = true) ids.
Proof.
  intros (ids' & Hids' & H)%init_Ok Hids Hoff.
  rewrite Hids in Hids'. injection Hids' as <-.
  apply load_loop_partition in H as [-> ->]; [|done|done]. simpl.
  assert (require_gt cfg = false) as Hgt.
  { unfold require_gt. destruct Hoff as [-> | ->]; [done|apply andb_false_r]. }
  clear Hids. split.
  - assert (∀ l, rejected_line cfg fs l = false) as Hrej.
    { intros l. unfold rejected_line. rewrite Hgt. apply andb_false_r. }
    induction ids as [|l ids IH]; [done|]. rewrite filter_cons.
    case_decide as Hl; [|done]. by rewrite Hrej in Hl.
  - f_equal. apply list_filter_iff. intros l.
    unfold retained_line. rewrite Hgt. simpl. by rewrite andb_true_r.
Qed.

Lemma X5_witness :
  ∃ p, __init__ (Samples.cfg 100 false []) Samples.empty_then_big = Ok p ∧
       img_ids_invalid p = [] ∧ img_ids p = ["empty"; "big"]%string.
Proof.
  eexists. split; [vm_compute; reflexivity|].
  apply (X5_no_rejection_when_filter_off (Samples.cfg 100 false [])
           Samples.empty_then_big _ [Samples.nl "empty"; Samples.nl "big"]).
  - vm_compute; reflexivity.
  - vm_compute; reflexivity.
  - right. reflexivity.
Defined.

(** X6.  When the configuration has both [has_labels] and
    [ignore_empty_gt] true, no empty annotation list is stored: every
    retained image has at least one raw annotation. *)
Theorem X6_retained_images_have_annotations cfg fs p :
  __init__ cfg fs = Ok p →
  has_labels_cfg cfg = true → ignore_empty_gt_cfg cfg = true →
  Forall (λ img_anns, img_anns ≠ []) (anns p).
Proof.
  intros (ids & _ & H)%init_Ok Hl Hg.
  apply (load_loop_invariant cfg fs
           (λ _ q, ignore_empty_gt q = true ∧
                   Forall (λ img_anns, img_anns ≠ []) (anns q))) in H.
  - by destruct H.
  - intros q j line q' [Hq1 Hq2] Hone. split.
    + apply load_one_settings in Hone as (_ & _ & _ & _ & Hgt & _). congruence.
    + by eapply load_one_nonempty.
  - simpl. rewrite Hl, Hg. split; [done|constructor].
Qed.

Lemma X6_witness :
  Forall (λ img_anns, img_anns ≠ [])
         (anns (Cases.built (Samples.cfg 100 true []) Samples.empty_then_big)).
Proof.
  apply (X6_retained_images_have_annotations (Samples.cfg 100 true [])
           Samples.empty_then_big); vm_compute; reflexivity.
Defined.

(** X7.  The identifier map of a constructed index has an entry for
    every retained identifier and for no other string. *)
Theorem X7_map_keys_are_the_retained_ids cfg fs p :
  __init__ cfg fs = Ok p →
  dom (img_id_to_idx p) = list_to_set (img_ids p).
Proof.
  intros (ids & _ & H)%init_Ok.
  apply (load_loop_invariant cfg fs
           (λ _ q, dom (img_id_to_idx q) = list_to_set (img_ids q))) in H.
  - done.
  - intros q j line q' Hq Hone. by eapply load_one_dom.
  - simpl. by rewrite dom_empty_L.
Qed.

Lemma X7_witness :
  dom (img_id_to_idx (Cases.built (Samples.cfg 100 true []) Samples.empty_then_big))
  = list_to_set (img_ids (Cases.built (Samples.cfg 100 true []) Samples.empty_then_big)).
Proof.
  apply (X7_map_keys_are_the_retained_ids (Samples.cfg 100 true [])
           Samples.empty_then_big); vm_compute; reflexivity.
Defined.

Section LastLine.
Context (cfg : VocParserCfg) (fs : FileSystem).

(** Whether a line is retained depends on its identifier only. *)
Lemma retained_line_ext line line' :
  strip_newlines line = strip_newlines line' →
  retained_line cfg fs line = retained_line cfg fs line'.
Proof.
  intros H. unfold retained_line, passes_size, has_objects, line_annotation.
  by rewrite H.
Qed.

(** One iteration assigns the line number to the identifier of a
    retained line and leaves the identifier map alone otherwise. *)
Lemma load_one_map self i line self' :
  min_img_size self = min_img_size_cfg cfg →
  ignore_empty_gt self = require_gt cfg →
  load_one cfg fs self i line = Ok self' →
  img_id_to_idx self' =
    if retained_line cfg fs line
    then <[strip_newlines line := i]> (img_id_to_idx self)
    else img_id_to_idx self.
Proof.
  intros Hmin Hgt H.
  destruct (load_one_partition cfg fs _ _ _ _ Hmin Hgt H) as [Hids _].
  apply load_one_Ok in H as (fn & xp & root & w & h & _ & H).
  destruct (retained_line cfg fs line);
    destruct H as [[_ ->]|(_ & img_anns & _ & [(_ & _ & ->)|(_ & ->)])];
    simpl in *; try done.
  - apply (f_equal length) in Hids. rewrite length_app in Hids. simpl in Hids. lia.
  - apply (f_equal length) in Hids. rewrite length_app in Hids. simpl in Hids. lia.
  - apply (f_equal length) in Hids. rewrite !length_app in Hids.
    simpl in Hids. lia.
Qed.

(** The loop seen from the split file: a property of the position and
    the parser that every iteration on the line at its position keeps,
    holds at the end. *)
Lemma load_loop_lines (P : nat → VocParser → Prop) (lines : list string) :
  (∀ self i line self',
      lines !! i = Some line → P i self →
      load_one cfg fs self i line = Ok self' → P (S i) self') →
  ∀ ids pre self self',
    lines = pre ++ ids → P (length pre) self →
    load_loop cfg fs self (length pre) ids = Ok self' →
    P (length lines) self'.
Proof.
  intros Hstep ids. induction ids as [|line ids IH]; intros pre self self' -> HP H.
  - simpl in H. injection H as <-. by rewrite app_nil_r.
  - simpl in H. bind_inv H.
    apply (IH (pre ++ [line]) a self').
    + by rewrite <- app_assoc.
    + rewrite length_app. simpl.
      replace (length pre + 1)%nat with (S (length pre)) by lia.
      eapply Hstep; [|done|done]. by apply list_lookup_middle.
    + rewrite length_app. simpl.
      by replace (length pre + 1)%nat with (S (length pre)) by lia.
Qed.

End LastLine.

(** X8.  The identifier map of a constructed index sends an identifier
    to the number (from 0) of the last line of the split file that holds
    it, and that line is a retained one. *)
Theorem X8_map_holds_last_line_number cfg fs p ids img_id idx :
  __init__ cfg fs = Ok p →
  readlines fs (split_filename cfg) = Some ids →
  img_id_to_idx p !! img_id = Some idx →
  ∃ line,
    ids !! idx = Some line ∧ strip_newlines line = img_id ∧
    retained_line cfg fs line = true ∧
    ∀ j line', ids !! j = Some line' → strip_newlines line' = img_id →
               (j ≤ idx)%nat.
Proof.
  intros (ids' & Hids' & H)%init_Ok Hids Hidx.
  rewrite Hids in Hids'. injection Hids' as <-.
  apply (load_loop_lines cfg fs
           (λ i q, min_img_size q = min_img_size_cfg cfg ∧
                   ignore_empty_gt q = require_gt cfg ∧
                   ∀ img_id idx, img_id_to_idx q !! img_id = Some idx →
                     ∃ line, ids !! idx = Some line ∧
                       strip_newlines line = img_id ∧
                       retained_line cfg fs line = true ∧
                       ∀ j line', (j < i)%nat → ids !! j = Some line' →
                                  strip_newlines line' = img_id → (j ≤ idx)%nat)
           ids) with (pre := []) in H.
  - destruct H as (_ & _ & H).
    destruct (H img_id idx Hidx) as (line & Hl & Hs & Hr & Hlast).
    exists line. do 3 (split; [done|]). intros j line' Hj Hs'.
    apply (Hlast j line'); [|done|done]. by eapply lookup_lt_Some.
  - clear H Hidx img_id idx. intros q i line q' Hline (Hmin & Hgt & Hq) Hone.
    pose proof (load_one_settings _ _ _ _ _ _ Hone)
      as (_ & _ & _ & _ & Hgt' & Hmin' & _).
    split; [congruence|]. split; [congruence|].
    rewrite (load_one_map cfg fs _ _ _ _ Hmin Hgt Hone).
    intros img_id idx Hidx.
    destruct (retained_line cfg fs line) eqn:Hret.
    + rewrite lookup_insert in Hidx. case_decide as Heq.
      * injection Hidx as <-. exists line. do 3 (split; [done|]).
        intros j line' Hj _ _. lia.
      * destruct (Hq img_id idx Hidx) as (l0 & Hl0 & Hs0 & Hr0 & Hlast).
        exists l0. do 3 (split; [done|]). intros j line' Hj Hl' Hs'.
        destruct (decide (j = i)) as [->|Hne].
        -- rewrite Hline in Hl'. injection Hl' as <-. congruence.
        -- apply (Hlast j line'); [lia|done|done].
    + destruct (Hq img_id idx Hidx) as (l0 & Hl0 & Hs0 & Hr0 & Hlast).
      exists l0. do 3 (split; [done|]). intros j line' Hj Hl' Hs'.
      destruct (decide (j = i)) as [->|Hne].
      * rewrite Hline in Hl'. injection Hl' as <-.
        rewrite (retained_line_ext cfg fs line l0) in Hret by congruence.
        congruence.
      * apply (Hlast j line'); [lia|done|done].
  - done.
  - simpl. do 2 (split; [done|]). intros img_id' idx'.
    by rewrite lookup_empty.
Qed.

Lemma X8_witness :
  ∃ line,
    [Samples.nl "empty"; Samples.nl "big"] !! 1%nat = Some line ∧
    strip_newlines line = "big"%string ∧
    retained_line (Samples.cfg 100 true []) Samples.empty_then_big line = true ∧
    ∀ j line', [Samples.nl "empty"; Samples.nl "big"] !! j = Some line' →
               strip_newlines line' = "big"%string → (j ≤ 1)%nat.
Proof.
  apply (X8_map_holds_last_line_number (Samples.cfg 100 true [])
           Samples.empty_then_big
           (Cases.built (Samples.cfg 100 true []) Samples.empty_then_big)).
  - vm_compute; reflexivity.
  - vm_compute; reflexivity.
  - vm_compute; reflexivity.
Defined.

(** X9.  When every line of the split file is retained (its image passes
    the size test and is not rejected for empty ground truth), [img_ids]
    is the list of stripped lines and the identifier map sends every
    identifier to a position of [img_ids] that holds it. *)
Theorem X9_map_holds_positions_when_all_retained cfg fs p ids :
  __init__ cfg fs = Ok p →
  readlines fs (split_filename cfg) = Some ids →
  Forall (λ l, retained_line cfg fs l = true) ids →
  img_ids p = strip_newlines <$> ids ∧ idx_points_to_id p.
Proof.
  intros Hinit Hids Hall.
  assert (img_ids p = strip_newlines <$> ids) as Hp.
  { apply init_Ok in Hinit as (ids' & Hids' & H).
    rewrite Hids in Hids'. injection Hids' as <-.
    apply load_loop_partition in H as [-> _]; [|done|done]. simpl. f_equal.
    clear Hids. induction Hall as [|l ids Hl Hall IH]; [done|].
    rewrite filter_cons. case_decide; [by rewrite IH|done]. }
  split; [done|].
  apply (init_all_retained cfg fs p ids Hinit Hids).
  by rewrite Hp, length_fmap.
Qed.

Lemma X9_witness :
  ∃ p, __init__ (Samples.cfg 100 false []) Samples.empty_then_big = Ok p ∧
       img_ids p = ["empty"; "big"]%string ∧ idx_points_to_id p.
Proof.
  eexists. split; [vm_compute; reflexivity|].
  apply (X9_map_holds_positions_when_all_retained (Samples.cfg 100 false [])
           Samples.empty_then_big _ [Samples.nl "empty"; Samples.nl "big"]).
  - vm_compute; reflexivity.
  - vm_compute; reflexivity.
  - repeat constructor.
Defined.

(** X10.  An exception that [ET.parse] raises for the annotation file of
    a line, or that reading the size of its root raises, stops the
    construction when the line is reached: the lines before it loaded,
    the construction raises that very exception, with nothing attached
    to it, and the lines after it play no part. *)
Theorem X10_unreadable_annotation_aborts cfg fs pre line post self fn xp e :
  readlines fs (split_filename cfg) = Some (pre ++ line :: post) →
  load_loop cfg fs (init_state cfg) 0 pre = Ok self →
  img_filename cfg (strip_newlines line) = Some fn →
  ann_filename cfg (strip_newlines line) = Some xp →
  ET_parse fs xp = Raise e ∨
    (∃ root, ET_parse fs xp = Ok root ∧ xml_size root = Raise e) →
  __init__ cfg fs = Raise e.
Proof.
  intros Hids Hpre Hfn Hxp Hbad.
  rewrite init_unfold, Hids. simpl. rewrite load_loop_app, Hpre. simpl.
  unfold load_one. rewrite Hfn. simpl. rewrite Hxp. simpl.
  destruct Hbad as [-> | (root & -> & Hsz)]; simpl; [done|].
  by rewrite Hsz.
Qed.

Lemma X10_witness :
  __init__ (Samples.cfg 100 false []) Cases.no_size = Raise AttributeError.
Proof.
  apply (X10_unreadable_annotation_aborts (Samples.cfg 100 false [])
           Cases.no_size [Samples.nl "big"] (Samples.nl "bare")
           [Samples.nl "big"]
           (Cases.built (Samples.cfg 100 false [])
              (Samples.disk [Samples.nl "big"]
                 [(Samples.xml_path_of "big",
                   Samples.image 500 500 [Samples.cat_box])]))
           "JPEGImages/bare.jpg" "Annotations/bare.xml").
  - vm_compute; reflexivity.
  - vm_compute; reflexivity.
  - vm_compute; reflexivity.
  - vm_compute; reflexivity.
  - right. eexists. split; vm_compute; reflexivity.
Defined.

Section SmallImages.
Context (cfg : VocParserCfg) (fs fs' : FileSystem).
Hypothesis same : same_above_size (min_img_size_cfg cfg) fs fs'.

Lemma load_one_same self i line :
  min_img_size self = min_img_size_cfg cfg →
  load_one cfg fs self i line = load_one cfg fs' self i line.
Proof.
  intros Hmin. destruct same as [_ Hxml]. unfold load_one.
  destruct (img_filename cfg _) as [fn|]; simpl; [|done].
  destruct (ann_filename cfg _) as [xp|]; simpl; [|done].
  specialize (Hxml xp).
  destruct (ET_parse fs xp) as [r|e], (ET_parse fs' xp) as [r'|e'];
    simpl; try done; [|by subst].
  destruct Hxml as [Hsz Hobjs]. rewrite <- Hsz.
  destruct (xml_size r) as [[w h]|e] eqn:Hr; simpl; [|done].
  destruct (Z.ltb_spec (Z.min w h) (min_img_size self)) as [Hlt|Hge]; [done|].
  rewrite (Hobjs w h) by (done || lia). done.
Qed.

Lemma load_loop_same ids self i :
  min_img_size self = min_img_size_cfg cfg →
  load_loop cfg fs self i ids = load_loop cfg fs' self i ids.
Proof.
  revert self i. induction ids as [|line ids IH]; intros self i Hmin; [done|].
  simpl. rewrite <- load_one_same by done.
  destruct (load_one cfg fs self i line) as [s|e] eqn:Hone; simpl; [|done].
  apply IH. apply load_one_settings in Hone as (_ & _ & _ & _ & _ & H & _).
  congruence.
Qed.

End SmallImages.

(** X11.  The objects of an image below the minimum size are never
    read: two disks with the same split file and the same annotation
    files up to the objects of such images give the same construction,
    the same index or the same exception. *)
Theorem X11_objects_of_small_images_are_not_read cfg fs fs' :
  same_above_size (min_img_size_cfg cfg) fs fs' →
  __init__ cfg fs = __init__ cfg fs'.
Proof.
  intros Hsame. rewrite !init_unfold. destruct Hsame as [Hlines Hxml].
  rewrite <- Hlines.
  destruct (readlines fs (split_filename cfg)) as [ids|]; simpl; [|done].
  by apply load_loop_same.
Qed.

Lemma X11_witness :
  __init__ (Samples.cfg 100 false []) Samples.small_unicorn
  = __init__ (Samples.cfg 100 false []) Cases.small_broken.
Proof.
  apply X11_objects_of_small_images_are_not_read. split.
  - intros path. reflexivity.
  - intros path. unfold Samples.small_unicorn, Cases.small_broken, Samples.disk.
    simpl. destruct (decide (Samples.xml_path_of "tiny" = path)) as [<-|Hne].
    + rewrite !lookup_insert_eq. simpl. split; [reflexivity|].
      intros w h [= <- <-]. vm_compute. intros H. by destruct H.
    + by rewrite !lookup_insert_ne, !lookup_empty.
Defined.

(** Stripping newlines twice is stripping them once. *)
Lemma lstrip_newlines_head s :
  match lstrip_newlines s with
  | EmptyString => True
  | String c _ => is_newline c = false
  end.
Proof.
  induction s as [|c s IH]; [done|]. simpl.
  destruct (is_newline c) eqn:Hc; [done|]. by rewrite Hc.
Qed.

Lemma rstrip_newlines_head c s :
  is_newline c = false →
  ∃ r, rstrip_newlines (String c s) = String c r.
Proof.
  intros Hc. simpl. destruct (rstrip_newlines s); rewrite ?Hc; eauto.
Qed.

Lemma rstrip_newlines_idemp s :
  rstrip_newlines (rstrip_newlines s) = rstrip_newlines s.
Proof.
  induction s as [|c s IH]; [done|]. simpl.
  destruct (rstrip_newlines s) as [|c' r] eqn:Hr.
  - destruct (is_newline c) eqn:Hc; [done|]. simpl. by rewrite Hc.
  - change (rstrip_newlines (String c (String c' r))) with
      (match rstrip_newlines (String c' r) with
       | EmptyString =>
           if is_newline c then EmptyString else String c EmptyString
       | r0 => String c r0
       end).
    by rewrite IH.
Qed.

Lemma strip_newlines_idemp s :
  strip_newlines (strip_newlines s) = strip_newlines s.
Proof.
  unfold strip_newlines. pose proof (lstrip_newlines_head s) as Hhead.
  destruct (lstrip_newlines s) as [|c s'] eqn:Hs; [done|].
  destruct (rstrip_newlines_head c s' Hhead) as [r Hr]. rewrite Hr.
  simpl lstrip_newlines. rewrite Hhead. rewrite <- Hr.
  apply rstrip_newlines_idemp.
Qed.

(** X12.  The identifiers a construction stores, retained or rejected,
    neither begin nor end with a newline: stripping one again gives it
    back. *)
Theorem X12_stored_ids_are_stripped cfg fs p img_id :
  __init__ cfg fs = Ok p →
  img_id ∈ img_ids p ++ img_ids_invalid p →
  strip_newlines img_id = img_id.
Proof.
  intros (ids & _ & H)%init_Ok Hin.
  apply load_loop_partition in H as [H1 H2]; [|done|done].
  rewrite H1, H2 in Hin. simpl in Hin.
  apply elem_of_app in Hin as [Hin|Hin];
    apply list_elem_of_fmap in Hin as (l & -> & _);
    apply strip_newlines_idemp.
Qed.

Lemma X12_witness : strip_newlines "big" = "big"%string.
Proof.
  apply (X12_stored_ids_are_stripped (Samples.cfg 100 true [])
           Samples.empty_then_big
           (Cases.built (Samples.cfg 100 true []) Samples.empty_then_big)).
  - vm_compute; reflexivity.
  - apply list_elem_of_here.
Defined.

(** * Further properties of the normalisation *)

Lemma usable_ignored_length self ann_info :
  (length (usable_anns self ann_info) + length (ignored_anns self ann_info))%nat
  = length ann_info.
Proof.
  unfold usable_anns, ignored_anns.
  induction ann_info as [|ann l IH]; [done|]. rewrite !filter_cons.
  destruct (ignored self ann); repeat case_decide; try done; simpl; lia.
Qed.

Lemma rows_of_boxes {A : Type} (box : A → Z * Z * Z * Z) (l : list A)
    (k : nat) (a : A) :
  l !! k = Some a →
  nd_row {| nd_dtype := float32; nd_shape := [length l; 4%nat];
            nd_data := concat ((λ a, shifted <$> bbox_row (box a)) <$> l) |}
         k
  = Some (shifted <$> bbox_row (box a)).
Proof.
  intros Hk. pose proof (lookup_lt_Some _ _ _ Hk) as Hlt.
  unfold nd_row. simpl. case_decide; [|lia]. f_equal. apply concat_row.
  - apply Forall_fmap, Forall_forall. intros x _. simpl.
    by rewrite length_fmap, length_bbox_row.
  - by rewrite list_lookup_fmap, Hk.
Qed.

(** The row of a box whose coordinates float32 holds exactly, in the
    configured order. *)
Lemma ordered_row_exact self ann x1 y1 x2 y2 :
  bbox ann = (x1, y1, x2, y2) →
  float32_exact x1 → float32_exact y1 →
  float32_exact x2 → float32_exact y2 →
  shifted <$> bbox_row (ordered_bbox self ann) =
  Num <$> (if yxyx self then [y1 - 1; x1 - 1; y2 - 1; x2 - 1]
           else [x1 - 1; y1 - 1; x2 - 1; y2 - 1]).
Proof.
  intros Hbox Hx1 Hy1 Hx2 Hy2. unfold ordered_bbox. rewrite Hbox.
  destruct (yxyx self); unfold bbox_row; by rewrite shifted_row_exact.
Qed.

Lemma usable_anns_spec self ann_info :
  usable_anns self ann_info =
  filter (λ ann, 1 ≤ box_width ann ∧ 1 ≤ box_height ann ∧
                 (difficult ann = 0 ∨ keep_difficult self = true)) ann_info.
Proof.
  unfold usable_anns. apply list_filter_iff. intros ann. split.
  - intros Hu. destruct (usable_not_degenerate self ann Hu) as [Hw Hh].
    do 2 (split; [done|]). unfold ignored in Hu.
    apply orb_false_iff in Hu as [_ Hu]. apply andb_false_iff in Hu as [Hu|Hu].
    + left. unfold truthy in Hu. apply negb_false_iff in Hu. by apply Z.eqb_eq.
    + right. by apply negb_false_iff.
  - intros (Hw & Hh & Hd). unfold ignored.
    assert (degenerate ann = false) as ->.
    { apply not_true_is_false. intros H%degenerate_spec. lia. }
    simpl. destruct Hd as [-> | ->]; [done|apply andb_false_r].
Qed.

Lemma ignored_anns_spec self ann_info :
  ignored_anns self ann_info =
  filter (λ ann, box_width ann < 1 ∨ box_height ann < 1 ∨
                 (difficult ann ≠ 0 ∧ keep_difficult self = false)) ann_info.
Proof.
  unfold ignored_anns. apply list_filter_iff. intros ann. unfold ignored.
  rewrite orb_true_iff, andb_true_iff, degenerate_spec, negb_true_iff.
  unfold truthy. rewrite negb_true_iff, Z.eqb_neq. tauto.
Qed.

(** X13.  The arrays [bbox] and [cls] hold, in stored order, the stored
    annotations that have width and height of at least 1 and are either
    not flagged difficult or kept by [keep_difficult]: for the [k]-th
    such annotation, with box [x1, y1, x2, y2] of coordinates that
    float32 holds exactly ([-2^24 < c <= 2^24]) and a label that it
    holds exactly, row [k] of [bbox] is [x1-1, y1-1, x2-1, y2-1], or
    [y1-1, x1-1, y2-1, x2-1] under the yxyx order, and entry [k] of
    [cls] is the label; there is no further row or entry. *)
Theorem X13_rows_follow_the_usable_annotations self ann_info :
  let kept :=
    filter (λ ann, 1 ≤ box_width ann ∧ 1 ≤ box_height ann ∧
                   (difficult ann = 0 ∨ keep_difficult self = true)) ann_info in
  ∃ b c,
    _parse_ann_info self ann_info !! "bbox"%string = Some b ∧
    _parse_ann_info self ann_info !! "cls"%string = Some c ∧
    (∀ k ann x1 y1 x2 y2,
       kept !! k = Some ann → bbox ann = (x1, y1, x2, y2) →
       float32_exact x1 → float32_exact y1 →
       float32_exact x2 → float32_exact y2 →
       - 2 ^ 24 ≤ label ann ≤ 2 ^ 24 →
       nd_row b k =
         Some (Num <$> (if yxyx self then [y1 - 1; x1 - 1; y2 - 1; x2 - 1]
                        else [x1 - 1; y1 - 1; x2 - 1; y2 - 1])) ∧
       nd_data c !! k = Some (Num (label ann))) ∧
    (∀ k, (length kept ≤ k)%nat → nd_row b k = None ∧ nd_data c !! k = None).
Proof.
  intros kept. subst kept. rewrite <- usable_anns_spec.
  eexists _, _. split; [apply parse_ann_info_bbox|].
  split; [apply parse_ann_info_cls|]. split.
  - intros k ann x1 y1 x2 y2 Hk Hbox Hx1 Hy1 Hx2 Hy2 Hl. split.
    + rewrite rows_of_boxes with (a := ann) by done.
      by rewrite (ordered_row_exact self ann x1 y1 x2 y2).
    + simpl. rewrite list_lookup_fmap, Hk. simpl. by rewrite label_cell_exact.
  - intros k Hk. split.
    + unfold nd_row. simpl. case_decide; [lia|done].
    + simpl. apply lookup_ge_None. by rewrite length_fmap.
Qed.

Lemma X13_witness :
  ∃ b c,
    _parse_ann_info (Samples.parser true) Samples.four_boxes !! "bbox"%string
      = Some b ∧
    _parse_ann_info (Samples.parser true) Samples.four_boxes !! "cls"%string
      = Some c ∧
    nd_row b 0 = Some (Num <$> [239; 47; 370; 194]) ∧
    nd_data c !! 0%nat = Some (Num 15) ∧
    nd_row b 2 = None.
Proof.
  destruct (X13_rows_follow_the_usable_annotations (Samples.parser true)
              Samples.four_boxes) as (b & c & Hb & Hc & Hrows & Hend).
  exists b, c. split; [exact Hb|]. split; [exact Hc|].
  destruct (Hrows 0%nat
              {| label := 15; bbox := (48, 240, 195, 371); difficult := 0 |}
              48 240 195 371 eq_refl eq_refl)
    as [Hrow Hlabel]; try (unfold float32_exact; simpl; lia).
  split; [exact Hrow|]. split; [exact Hlabel|].
  apply (Hend 2%nat). vm_compute. lia.
Defined.

(** X14.  With [include_bboxes_ignore] set, the record has the four
    arrays, every stored annotation is a row of exactly one of [bbox]
    and [bbox_ignore], so the two row counts add up to the number of
    stored annotations, and the rows of [bbox_ignore] are the boxes of
    the other annotations (width or height below 1, or difficult and not
    kept) in stored order, with the same shift: for a box
    [x1, y1, x2, y2] of coordinates that float32 holds exactly and a
    label that it holds exactly, the row is [x1-1, y1-1, x2-1, y2-1], or
    [y1-1, x1-1, y2-1, x2-1] under the yxyx order, and the entry of
    [cls_ignore] is the label. *)
Theorem X14_ignore_arrays_complete_the_partition self ann_info :
  include_bboxes_ignore self = true →
  let dropped :=
    filter (λ ann, box_width ann < 1 ∨ box_height ann < 1 ∨
                   (difficult ann ≠ 0 ∧ keep_difficult self = false)) ann_info in
  ∃ b c bi ci n m,
    _parse_ann_info self ann_info !! "bbox"%string = Some b ∧
    _parse_ann_info self ann_info !! "cls"%string = Some c ∧
    _parse_ann_info self ann_info !! "bbox_ignore"%string = Some bi ∧
    _parse_ann_info self ann_info !! "cls_ignore"%string = Some ci ∧
    nd_shape b = [n; 4%nat] ∧ nd_shape c = [n] ∧
    nd_shape bi = [m; 4%nat] ∧ nd_shape ci = [m] ∧
    (n + m)%nat = length ann_info ∧ m = length dropped ∧
    ∀ k ann x1 y1 x2 y2,
      dropped !! k = Some ann → bbox ann = (x1, y1, x2, y2) →
      float32_exact x1 → float32_exact y1 →
      float32_exact x2 → float32_exact y2 →
      - 2 ^ 24 ≤ label ann ≤ 2 ^ 24 →
      nd_row bi k =
        Some (Num <$> (if yxyx self then [y1 - 1; x1 - 1; y2 - 1; x2 - 1]
                       else [x1 - 1; y1 - 1; x2 - 1; y2 - 1])) ∧
      nd_data ci !! k = Some (Num (label ann)).
Proof.
  intros Hinc dropped. subst dropped. rewrite <- ignored_anns_spec.
  destruct (parse_ann_info_ignore self ann_info Hinc) as [Hbi Hci].
  eexists _, _, _, _, _, _. split; [apply parse_ann_info_bbox|].
  split; [apply parse_ann_info_cls|]. split; [exact Hbi|]. split; [exact Hci|].
  simpl. do 4 (split; [reflexivity|]). split; [apply usable_ignored_length|].
  split; [reflexivity|].
  intros k ann x1 y1 x2 y2 Hk Hbox Hx1 Hy1 Hx2 Hy2 Hl. split.
  - rewrite rows_of_boxes with (a := ann) by done.
    by rewrite (ordered_row_exact self ann x1 y1 x2 y2).
  - rewrite list_lookup_fmap, Hk. simpl. by rewrite label_cell_exact.
Qed.

Lemma X14_witness :
  ∃ bi ci,
    _parse_ann_info (Cases.with_ignore (Samples.parser true)) Samples.four_boxes
      !! "bbox_ignore"%string = Some bi ∧
    _parse_ann_info (Cases.with_ignore (Samples.parser true)) Samples.four_boxes
      !! "cls_ignore"%string = Some ci ∧
    nd_shape bi = [2%nat; 4%nat] ∧
    nd_row bi 1 = Some (Num <$> [5; 4; 59; 49]) ∧
    nd_data ci !! 1%nat = Some (Num 12).
Proof.
  destruct (X14_ignore_arrays_complete_the_partition
              (Cases.with_ignore (Samples.parser true)) Samples.four_boxes
              eq_refl)
    as (b & c & bi & ci & n & m & _ & _ & Hbi & Hci & _ & _ & Hsh & _ & _ & Hm & Hrows).
  exists bi, ci. split; [exact Hbi|]. split; [exact Hci|].
  split; [by rewrite Hsh, Hm|].
  apply (Hrows 1%nat {| label := 12; bbox := (5, 6, 50, 60); difficult := 1 |}
           5 6 50 60 eq_refl eq_refl); unfold float32_exact; simpl; lia.
Defined.

Lemma ignored_ext self self' ann :
  keep_difficult self' = keep_difficult self →
  ignored self' ann = ignored self ann.
Proof. intros H. unfold ignored. by rewrite H. Qed.

Lemma usable_anns_ext self self' ann_info :
  keep_difficult self' = keep_difficult self →
  usable_anns self' ann_info = usable_anns self ann_info.
Proof.
  intros H. unfold usable_anns. apply list_filter_iff. intros ann.
  by rewrite (ignored_ext self self').
Qed.

Lemma ignored_anns_ext self self' ann_info :
  keep_difficult self' = keep_difficult self →
  ignored_anns self' ann_info = ignored_anns self ann_info.
Proof.
  intros H. unfold ignored_anns. apply list_filter_iff. intros ann.
  by rewrite (ignored_ext self self').
Qed.

Lemma parse_ann_ext self self' g ann :
  yxyx self' = yxyx self → keep_difficult self' = keep_difficult self →
  parse_ann self' g ann = parse_ann self g ann.
Proof.
  intros Hy Hk. unfold parse_ann, ordered_bbox. by rewrite Hy, Hk.
Qed.

Lemma parse_ann_info_ext self self' ann_info :
  same_normalisation self self' →
  _parse_ann_info self' ann_info = _parse_ann_info self ann_info.
Proof.
  intros (Hy & Hk & Hi). unfold _parse_ann_info. rewrite Hi.
  assert (foldl (parse_ann self') no_groups ann_info =
          foldl (parse_ann self) no_groups ann_info) as ->; [|done].
  generalize no_groups. induction ann_info as [|ann l IH]; intros g; [done|].
  simpl. by rewrite IH, (parse_ann_ext self self').
Qed.

(** X15.  The coordinate order decides the order of the columns and
    nothing else: a parser with the yxyx order and one with the xyxy
    order that agree on [keep_difficult] return the same labels and the
    same number of rows, and each row of one is the row of the other
    with x and y exchanged in both corners. *)
Theorem X15_yxyx_exchanges_the_columns self self' ann_info :
  yxyx self = false → yxyx self' = true →
  keep_difficult self' = keep_difficult self →
  ∃ b b' c,
    _parse_ann_info self ann_info !! "bbox"%string = Some b ∧
    _parse_ann_info self' ann_info !! "bbox"%string = Some b' ∧
    _parse_ann_info self ann_info !! "cls"%string = Some c ∧
    _parse_ann_info self' ann_info !! "cls"%string = Some c ∧
    nd_shape b' = nd_shape b ∧
    ∀ k row, nd_row b k = Some row → nd_row b' k = Some (swap_xy row).
Proof.
  intros Hxy Hyx Hkeep.
  pose proof (usable_anns_ext self self' ann_info Hkeep) as Hu.
  eexists _, _, _.
  split; [apply parse_ann_info_bbox|].
  split; [rewrite parse_ann_info_bbox, Hu; reflexivity|].
  split; [apply parse_ann_info_cls|].
  split; [rewrite parse_ann_info_cls, Hu; reflexivity|]. split; [done|].
  intros k row Hrow.
  destruct (usable_anns self ann_info !! k) as [ann|] eqn:Hk.
  - rewrite rows_of_boxes with (a := ann) in Hrow by done.
    rewrite rows_of_boxes with (a := ann) by done.
    injection Hrow as <-. f_equal. unfold ordered_bbox. rewrite Hxy, Hyx.
    by destruct (bbox ann) as [[[x1 y1] x2] y2].
  - apply lookup_ge_None in Hk. unfold nd_row in Hrow. simpl in Hrow.
    case_decide; [lia|done].
Qed.

Lemma X15_witness :
  ∃ b b' c,
    _parse_ann_info (Samples.parser false) Samples.four_boxes !! "bbox"%string
      = Some b ∧
    _parse_ann_info (Samples.parser true) Samples.four_boxes !! "bbox"%string
      = Some b' ∧
    _parse_ann_info (Samples.parser false) Samples.four_boxes !! "cls"%string
      = Some c ∧
    _parse_ann_info (Samples.parser true) Samples.four_boxes !! "cls"%string
      = Some c ∧
    nd_shape b' = nd_shape b ∧
    ∀ k row, nd_row b k = Some row → nd_row b' k = Some (swap_xy row).
Proof.
  apply (X15_yxyx_exchanges_the_columns (Samples.parser false)
           (Samples.parser true) Samples.four_boxes); reflexivity.
Defined.

(** X16.  [get_ann_info] reads three attributes of the parser, [yxyx],
    [keep_difficult] and [include_bboxes_ignore], and the stored
    annotations: two parsers that agree on these return the same, in
    particular whatever [correct_bbox] holds, the shift is by one. *)
Theorem X16_normalisation_reads_three_attributes self self' idx :
  same_normalisation self self' → anns self' = anns self →
  get_ann_info self' idx = get_ann_info self idx.
Proof.
  intros Hsame Hanns. unfold get_ann_info. rewrite Hanns.
  destruct (py_getitem (anns self) idx) as [ann_info|e]; simpl; [|done].
  by rewrite (parse_ann_info_ext self self').
Qed.

Lemma X16_witness :
  get_ann_info (Cases.with_correct_bbox 0 (Samples.parser false)) 0
  = get_ann_info (Samples.parser false) 0.
Proof.
  apply X16_normalisation_reads_three_attributes.
  - repeat split.
  - reflexivity.
Defined.






(** * Further properties of [merge] *)

(** A successful merge of two different objects, by what it leaves in
    the store. *)
Lemma merge_Ok_distinct h self other a b h' :
  self ≠ other → h !! self = Some a → h !! other = Some b →
  merge h self other = Ok h' →
  ∃ a',
    h' !! self = Some a' ∧ h' !! other = Some b ∧
    (∀ l, l ≠ self → h' !! l = h !! l) ∧
    img_ids a' = img_ids a ++ img_ids b ∧
    img_infos a' = img_infos a ++ img_infos b ∧
    anns a' = anns a ++ anns b ∧
    img_ids_invalid a' = img_ids_invalid a ∧
    same_settings a a' ∧
    (∀ id idx, img_id_to_idx b !! id = Some idx →
       img_id_to_idx a' !! id = Some (idx + length (img_ids a))%nat) ∧
    (∀ id, img_id_to_idx b !! id = None →
       img_id_to_idx a' !! id = img_id_to_idx a !! id).
Proof.
  intros Hne Hs Ho Hm.
  destruct (decide (length (cat_ids a) = length (cat_ids b))) as [Hcat|Hcat];
    [|by rewrite (merge_assertion h self other a b Hs Ho Hcat) in Hm].
  destruct (merge_distinct h self other a b Hne Hs Ho Hcat)
    as (h'' & a' & Hm' & H).
  rewrite Hm in Hm'. injection Hm' as <-. by exists a'.
Qed.

(** X18.  [merge] keeps the position invariant of the identifier map:
    when in each of two different indexes every identifier is mapped to
    a position of [img_ids] that holds it, the same is true of the
    receiver after the merge. *)
Theorem X18_merge_keeps_positions h self other a b h' :
  self ≠ other → h !! self = Some a → h !! other = Some b →
  idx_points_to_id a → idx_points_to_id b →
  merge h self other = Ok h' →
  ∃ a', h' !! self = Some a' ∧ idx_points_to_id a'.
Proof.
  intros Hne Hs Ho Ha Hb Hm.
  destruct (merge_Ok_distinct h self other a b h' Hne Hs Ho Hm)
    as (a' & Ha' & _ & _ & Hids & _ & _ & _ & _ & Hin & Hout).
  exists a'. split; [done|]. intros img_id idx Hidx. rewrite Hids.
  destruct (img_id_to_idx b !! img_id) as [idx_b|] eqn:Hidb.
  - rewrite (Hin img_id idx_b Hidb) in Hidx. injection Hidx as <-.
    rewrite lookup_app_r by lia.
    replace (idx_b + length (img_ids a) - length (img_ids a))%nat
      with idx_b by lia.
    by apply Hb.
  - rewrite (Hout img_id Hidb) in Hidx. apply lookup_app_l_Some. by apply Ha.
Qed.

Lemma sample_parser_positions : idx_points_to_id (Samples.parser false).
Proof.
  intros img_id idx. unfold Samples.parser. simpl.
  rewrite !lookup_insert. repeat case_decide; subst;
    rewrite ?lookup_empty; intros [=]; subst; reflexivity.
Qed.

Lemma sample_other_positions : idx_points_to_id Samples.other_parser.
Proof.
  intros img_id idx. unfold Samples.other_parser. simpl.
  rewrite !lookup_insert. repeat case_decide; subst;
    rewrite ?lookup_empty; intros [=]; subst; reflexivity.
Qed.

Lemma X18_witness :
  ∃ a', Cases.merged Samples.two_parsers 0%nat 1%nat !! 0%nat = Some a' ∧
        idx_points_to_id a'.
Proof.
  apply (X18_merge_keeps_positions Samples.two_parsers 0%nat 1%nat
              (Samples.parser false) Samples.other_parser
              (Cases.merged Samples.two_parsers 0%nat 1%nat)).
  - discriminate.
  - reflexivity.
  - reflexivity.
  - exact sample_parser_positions.
  - exact sample_other_positions.
  - vm_compute; reflexivity.
Defined.

(** X19.  [merge] keeps the three main sequences of the receiver at one
    length when they are so in both indexes, whether the source is
    another object or the receiver itself. *)
Theorem X19_merge_keeps_alignment h self other a b h' :
  h !! self = Some a → h !! other = Some b →
  aligned a → aligned b →
  merge h self other = Ok h' →
  ∃ a', h' !! self = Some a' ∧ aligned a'.
Proof.
  intros Hs Ho [Ha1 Ha2] [Hb1 Hb2] Hm.
  destruct (decide (self = other)) as [<-|Hne].
  - rewrite Hs in Ho. injection Ho as <-.
    destruct (merge_itself h self a Hs)
      as (h'' & a' & Hm' & Ha' & Hids & Hinfos & Hanns & _).
    rewrite Hm in Hm'. injection Hm' as <-.
    exists a'. split; [done|]. unfold aligned.
    rewrite Hids, Hinfos, Hanns, !length_app. lia.
  - destruct (merge_Ok_distinct h self other a b h' Hne Hs Ho Hm)
      as (a' & Ha' & _ & _ & Hids & Hinfos & Hanns & _).
    exists a'. split; [done|]. unfold aligned.
    rewrite Hids, Hinfos, Hanns, !length_app. lia.
Qed.

Lemma X19_witness :
  ∃ a', Cases.merged Samples.two_parsers 0%nat 1%nat !! 0%nat = Some a' ∧
        aligned a'.
Proof.
  apply (X19_merge_keeps_alignment Samples.two_parsers 0%nat 1%nat
           (Samples.parser false) Samples.other_parser
           (Cases.merged Samples.two_parsers 0%nat 1%nat)).
  - reflexivity.
  - reflexivity.
  - split; reflexivity.
  - split; reflexivity.
  - vm_compute; reflexivity.
Defined.

(** X20.  [merge] extends the three main sequences and the identifier
    map of the receiver and nothing else: the receiver keeps its
    settings, its category table and its own [img_ids_invalid] (the
    rejected identifiers of the source are not taken over), the
    identifiers that the source does not have keep their entry in the
    map, and every other object of the store, the source included, is
    as before. *)
Theorem X20_merge_touches_nothing_else h self other a b h' :
  self ≠ other → h !! self = Some a → h !! other = Some b →
  merge h self other = Ok h' →
  ∃ a',
    h' !! self = Some a' ∧
    same_settings a a' ∧
    img_ids_invalid a' = img_ids_invalid a ∧
    (∀ id, img_id_to_idx b !! id = None →
       img_id_to_idx a' !! id = img_id_to_idx a !! id) ∧
    (∀ l, l ≠ self → h' !! l = h !! l).
Proof.
  intros Hne Hs Ho Hm.
  destruct (merge_Ok_distinct h self other a b h' Hne Hs Ho Hm)
    as (a' & Ha' & _ & Hframe & _ & _ & _ & Hinv & Hset & _ & Hout).
  by exists a'.
Qed.

Lemma X20_witness :
  ∃ a',
    Cases.merged Cases.with_empty 0%nat 1%nat !! 0%nat = Some a' ∧
    same_settings (Samples.parser false) a' ∧
    img_ids_invalid a' = [] ∧
    (∀ id, img_id_to_idx Cases.empty_parser !! id = None →
       img_id_to_idx a' !! id = img_id_to_idx (Samples.parser false) !! id) ∧
    (∀ l, l ≠ 0%nat →
       Cases.merged Cases.with_empty 0%nat 1%nat !! l = Cases.with_empty !! l).
Proof.
  apply (X20_merge_touches_nothing_else Cases.with_empty 0%nat 1%nat
           (Samples.parser false) Cases.empty_parser
           (Cases.merged Cases.with_empty 0%nat 1%nat)).
  - discriminate.
  - reflexivity.
  - reflexivity.
  - vm_compute; reflexivity.
Defined.

(** X21.  After a merge of two different indexes the receiver answers
    [get_ann_info] at its old positions as before, and at the position
    [len(a.anns) + k] with the annotations of position [k] of the
    source, normalised with the receiver's own [yxyx], [keep_difficult]
    and [include_bboxes_ignore]; when the two indexes agree on these
    three, that is the record the source returns at [k]. *)
Theorem X21_get_ann_info_after_merge h self other a b h' :
  self ≠ other → h !! self = Some a → h !! other = Some b →
  merge h self other = Ok h' →
  ∃ a',
    h' !! self = Some a' ∧
    (∀ k, (k < length (anns a))%nat →
       get_ann_info a' (Z.of_nat k) = get_ann_info a (Z.of_nat k)) ∧
    (∀ k ann_info, anns b !! k = Some ann_info →
       get_ann_info a' (Z.of_nat (length (anns a) + k))
       = Ok (_parse_ann_info a ann_info)) ∧
    (same_normalisation a b →
     ∀ k, (k < length (anns b))%nat →
       get_ann_info a' (Z.of_nat (length (anns a) + k))
       = get_ann_info b (Z.of_nat k)).
Proof.
  intros Hne Hs Ho Hm.
  destruct (merge_Ok_distinct h self other a b h' Hne Hs Ho Hm)
    as (a' & Ha' & _ & _ & _ & _ & Hanns & _ & Hset & _).
  assert (same_normalisation a a') as Hnorm.
  { destruct Hset as (? & _ & ? & ? & _). by repeat split. }
  assert (∀ k ann_info, anns b !! k = Some ann_info →
            get_ann_info a' (Z.of_nat (length (anns a) + k))
            = Ok (_parse_ann_info a ann_info)) as Hnew.
  { intros k ann_info Hk. unfold get_ann_info.
    rewrite (py_getitem_nat (anns a') (length (anns a) + k) ann_info).
    - simpl. by rewrite (parse_ann_info_ext a a').
    - rewrite Hanns, lookup_app_r by lia.
      by replace (length (anns a) + k - length (anns a))%nat with k by lia. }
  exists a'. split; [done|]. split; [|split; [done|]].
  - intros k Hk.
    destruct (lookup_lt_is_Some_2 (anns a) k Hk) as [ann_info Hl].
    unfold get_ann_info.
    rewrite (py_getitem_nat (anns a) k ann_info Hl).
    rewrite (py_getitem_nat (anns a') k ann_info).
    + simpl. by rewrite (parse_ann_info_ext a a').
    + rewrite Hanns. by apply lookup_app_l_Some.
  - intros Hab k Hk.
    destruct (lookup_lt_is_Some_2 (anns b) k Hk) as [ann_info Hl].
    rewrite (Hnew k ann_info Hl). unfold get_ann_info.
    rewrite (py_getitem_nat (anns b) k ann_info Hl). simpl.
    by rewrite (parse_ann_info_ext a b).
Qed.

Lemma X21_witness :
  ∃ a',
    Cases.merged Samples.two_parsers 0%nat 1%nat !! 0%nat = Some a' ∧
    get_ann_info a' 0 = get_ann_info (Samples.parser false) 0 ∧
    get_ann_info a' 2 = get_ann_info Samples.other_parser 0.
Proof.
  destruct (X21_get_ann_info_after_merge Samples.two_parsers 0%nat 1%nat
              (Samples.parser false) Samples.other_parser
              (Cases.merged Samples.two_parsers 0%nat 1%nat)
              ltac:(discriminate) eq_refl eq_refl ltac:(vm_compute; reflexivity))
    as (a' & Ha' & Hold & _ & Hsame).
  exists a'. split; [exact Ha'|]. split.
  - apply (Hold 0%nat). simpl. lia.
  - apply (Hsame ltac:(repeat split) 0%nat). simpl. lia.
Defined.

(** A parser is its attributes. *)
Lemma parser_eq (p q : VocParser) :
  same_settings p q →
  img_ids q = img_ids p → img_ids_invalid q = img_ids_invalid p →
  img_infos q = img_infos p → img_id_to_idx q = img_id_to_idx p →
  anns q = anns p →
  q = p.
Proof.
  destruct p, q. unfold same_settings. simpl.
  intros (-> & -> & -> & -> & -> & -> & -> & -> & ->) -> -> -> -> ->. done.
Qed.

(** X22.  Merging an index without images changes nothing: the store
    after the merge is the store before it. *)
Theorem X22_merge_of_an_empty_index h self other a b h' :
  self ≠ other → h !! self = Some a → h !! other = Some b →
  img_ids b = [] → img_infos b = [] → anns b = [] → img_id_to_idx b = ∅ →
  merge h self other = Ok h' →
  h' = h.
Proof.
  intros Hne Hs Ho Hids Hinfos Hanns Hmap Hm.
  destruct (merge_Ok_distinct h self other a b h' Hne Hs Ho Hm)
    as (a' & Ha' & _ & Hframe & Hids' & Hinfos' & Hanns' & Hinv & Hset & _ & Hout).
  rewrite Hids, app_nil_r in Hids'. rewrite Hinfos, app_nil_r in Hinfos'.
  rewrite Hanns, app_nil_r in Hanns'.
  assert (a' = a) as ->.
  { apply parser_eq; try done. apply map_eq. intros id. apply Hout.
    by rewrite Hmap, lookup_empty. }
  apply map_eq. intros l. destruct (decide (l = self)) as [->|Hl].
  - by rewrite Ha', Hs.
  - by apply Hframe.
Qed.

Lemma X22_witness :
  Cases.merged Cases.with_empty 0%nat 1%nat = Cases.with_empty.
Proof.
  apply (X22_merge_of_an_empty_index Cases.with_empty 0%nat 1%nat
           (Samples.parser false) Cases.empty_parser).
  - discriminate.
  - reflexivity.
  - reflexivity.
  - reflexivity.
  - reflexivity.
  - reflexivity.
  - reflexivity.
  - vm_compute; reflexivity.
Defined.
